(** * sigbridge: the Interactive Brokers adapter [ibWrapper.py]

    A shallow embedding of class [IBWrapper] (src/ibWrapper.py) and the
    properties its specification states about it.

    The adapter is Python 2 glue code: three regular expressions applied
    to the textual form of gateway messages, a lookup in a nested
    dictionary read from a JSON file, two record builders and logging.
    The embedding keeps these as they are written:
    - byte strings are [string], integers are [Z];
    - [re.search] is a backtracking matcher over the fragment of regular
      expressions the source uses, with Python's greedy, leftmost
      semantics and numbered groups;
    - methods are state transformers on the adapter: a method returns its
      value or the exception it raises, together with the adapter as the
      call leaves it (what was logged before a raise stays logged);
    - dictionaries are [gmap]s. *)

From Stdlib Require Import ZArith NArith Ascii String DecimalString Bool Lia.
From Stdlib Require Import DecimalPos.
From stdpp Require Import base strings gmap.

(** ** Byte strings *)

Module Str.

Definition code (c : ascii) : N := N_of_ascii c.

Definition between (lo hi : N) (c : ascii) : bool :=
  (lo <=? code c)%N && (code c <=? hi)%N.

Definition is_digit (c : ascii) : bool := between 48 57 c.
Definition is_upper (c : ascii) : bool := between 65 90 c.
Definition is_lower (c : ascii) : bool := between 97 122 c.

(** [str.lower] of Python 2 on one byte: only [A]..[Z] change. *)
Definition lower_char (c : ascii) : ascii :=
  if is_upper c then ascii_of_N (code c + 32) else c.

(** [s.lower()] *)
Fixpoint lower (s : string) : string :=
  match s with
  | EmptyString => EmptyString
  | String c s' => String (lower_char c) (lower s')
  end.

(** [s.startswith(p)] *)
Fixpoint startswith (s p : string) : bool :=
  match p, s with
  | EmptyString, _ => true
  | String a p', String b s' => Ascii.eqb a b && startswith s' p'
  | String _ _, EmptyString => false
  end.

(** What is left of [s] after the literal [p], when [s] starts with it. *)
Fixpoint strip_prefix (p s : string) : option string :=
  match p, s with
  | EmptyString, _ => Some s
  | String a p', String b s' =>
      if Ascii.eqb a b then strip_prefix p' s' else None
  | String _ _, EmptyString => None
  end.

(** The first [n] bytes of [s]. *)
Fixpoint take (n : nat) (s : string) : string :=
  match n, s with
  | S n', String c s' => String c (take n' s')
  | _, _ => EmptyString
  end.

(** The longest prefix of [s] whose bytes all satisfy [p], and the rest. *)
Fixpoint span (p : ascii → bool) (s : string) : string * string :=
  match s with
  | String c s' =>
      if p c then let '(a, b) := span p s' in (String c a, b)
      else (EmptyString, s)
  | EmptyString => (EmptyString, EmptyString)
  end.

Fixpoint all (p : ascii → bool) (s : string) : bool :=
  match s with
  | EmptyString => true
  | String c s' => p c && all p s'
  end.

(** The head of [s] does not satisfy [p] (or [s] is empty). *)
Definition stops (p : ascii → bool) (s : string) : bool :=
  match s with
  | EmptyString => true
  | String c _ => negb (p c)
  end.

(** [int(s)] on a string of decimal digits (base 10, most significant
    digit first); Python 2 integers do not overflow. *)
Definition digit_val (c : ascii) : Z := Z.of_N (code c) - 48.

Fixpoint int_acc (acc : Z) (s : string) : Z :=
  match s with
  | EmptyString => acc
  | String c s' => int_acc (10 * acc + digit_val c) s'
  end.

Definition int (s : string) : Z := int_acc 0 s.

(** ["%d" % n] *)
Definition of_int (n : Z) : string := NilZero.string_of_int (Z.to_int n).

End Str.

(** ** Regular expressions: the fragment of [re] the adapter uses *)

Module Re.

(** The three patterns of the source are sequences of literal bytes,
    one-byte classes ([.], [\s]), greedy repetitions of a one-byte class
    ([.*], [\w+], [\d+]) and numbered groups. *)
Inductive regex : Type :=
| Eps
| Chr (p : ascii → bool)
| Seq (r1 r2 : regex)
| Star (p : ascii → bool)
| Group (r : regex).

Definition Lit (c : ascii) : regex := Chr (Ascii.eqb c).
Definition Plus (p : ascii → bool) : regex := Seq (Chr p) (Star p).

Fixpoint Text (s : string) : regex :=
  match s with
  | EmptyString => Eps
  | String c s' => Seq (Lit c) (Text s')
  end.

(** The classes, for a byte-string pattern compiled without flags. *)
Definition dot (c : ascii) : bool := negb (Str.code c =? 10)%N.
Definition digit (c : ascii) : bool := Str.is_digit c.
Definition word (c : ascii) : bool :=
  Str.is_digit c || Str.is_upper c || Str.is_lower c || (Str.code c =? 95)%N.
Definition space (c : ascii) : bool :=
  (Str.code c =? 32)%N || Str.between 9 13 c.

(** Greedy repetition with backtracking: take one more byte when it is in
    the class and the rest of the pattern matches after it, otherwise
    let the rest of the pattern try from here. *)
Fixpoint star_greedy {R : Type} (p : ascii → bool) (k : string → option R)
    (s : string) : option R :=
  match s with
  | String c s' =>
      if p c then
        match star_greedy p k s' with
        | Some r => Some r
        | None => k s
        end
      else k s
  | EmptyString => k s
  end.

(** The text between the position [s] and the later position [s']. *)
Definition consumed (s s' : string) : string :=
  Str.take (String.length s - String.length s') s.

(** [exec r s caps k]: match [r] at the head of [s], then continue with
    [k] on what is left; [caps] holds the groups opened so far, in the
    order of their opening parentheses. *)
Fixpoint exec (r : regex) (s : string) (caps : list string)
    (k : string → list string → option (list string)) : option (list string) :=
  match r with
  | Eps => k s caps
  | Chr p =>
      match s with
      | String c s' => if p c then k s' caps else None
      | EmptyString => None
      end
  | Seq r1 r2 => exec r1 s caps (λ s' caps', exec r2 s' caps' k)
  | Star p => star_greedy p (λ s', k s' caps) s
  | Group r =>
      let i := length caps in
      exec r s (caps ++ [EmptyString])
        (λ s' caps', k s' (<[i := consumed s s']> caps'))
  end.

(** A match anchored at the head of [s]: the groups, when there is one. *)
Definition match_here (r : regex) (s : string) : option (list string) :=
  exec r s [] (λ _ caps, Some caps).

(** [re.search(r, s)]: the match at the leftmost position that has one;
    the result lists [group(1)], [group(2)], ... *)
Fixpoint search (r : regex) (s : string) : option (list string) :=
  match match_here r s with
  | Some caps => Some caps
  | None =>
      match s with
      | String _ s' => search r s'
      | EmptyString => None
      end
  end.

(** [m.group(i)] for [i >= 1]. *)
Definition group (caps : list string) (i : nat) : string :=
  default EmptyString (caps !! (i - 1)%nat).

End Re.

(** ** Python values *)

(** The values that reach the adapter: byte strings, integers, booleans,
    [None], and instances of the message classes of [ib.opt] (known by
    their class name, their [typeName] attribute and what [str] prints for
    them). *)
Inductive value : Type :=
| VNone
| VBool (b : bool)
| VInt (n : Z)
| VStr (s : string)
| VObj (cls typeName text : string).

Inductive exn : Type :=
| ValueError (text : string)
| TypeError (text : string)
| AttributeError (text : string)
| IOError (text : string)
| OtherError (cls text : string).

(** [type(v).__name__] (for an integer beyond the machine word Python 2
    says [long]; no property below depends on that text). *)
Definition type_name (v : value) : string :=
  match v with
  | VNone => "NoneType"
  | VBool _ => "bool"
  | VInt _ => "int"
  | VStr _ => "str"
  | VObj cls _ _ => cls
  end.

(** [str(v)], which is also what ["%s" % v] substitutes. *)
Definition py_str (v : value) : string :=
  match v with
  | VNone => "None"
  | VBool true => "True"
  | VBool false => "False"
  | VInt n => Str.of_int n
  | VStr s => s
  | VObj _ _ text => text
  end.

(** [s + v] for a byte string [s]: concatenation when [v] is a string,
    a type error for anything else. *)
Definition str_add (s : string) (v : value) : exn + string :=
  match v with
  | VStr t => inr (s +:+ t)
  | _ =>
      inl (TypeError
             ("cannot concatenate 'str' and '" +:+ type_name v +:+ "' objects"))
  end.

(** [v.typeName] *)
Definition get_typeName (v : value) : exn + string :=
  match v with
  | VObj _ typeName _ => inr typeName
  | _ =>
      inl (AttributeError
             ("'" +:+ type_name v +:+ "' object has no attribute 'typeName'"))
  end.

(** ** Records of the wrapped library and of the logger *)

(** [ib.ext.Contract], the fields the adapter fills in. *)
Record Contract : Type := mkContract {
  m_symbol : string;
  m_secType : string;
  m_exchange : string;
  m_primaryExch : string;
  m_currency : string;
}.

(** [ib.ext.Order], the fields the adapter fills in; the arguments are
    stored as they come. *)
Record Order : Type := mkOrder {
  m_orderType : value;
  m_totalQuantity : value;
  m_action : value;
}.

Inductive level : Type := INFO | ERROR.

(** One line handed to a logging sink: its level and its message. *)
Definition log_record : Type := level * string.

(** What the adapter asks of the connection object [self.con]. *)
Inductive con_call : Type :=
| ConCreate (ip : string) (port client_id : Z)
| ConRegister (handler typeName : string)
| ConConnect
| ConDisconnect
| ConPlaceOrder (order_id : value) (contract : Contract) (order : Order)
| ConReqMktData (tickerId : Z) (contract : Contract) (genericTicks : string)
    (snapshot : bool).

(** ** The adapter *)

(** Modelled from the spec: the content of [conf/ibsymbols.json], which is
    not part of the sources: a mapping from security type to a mapping from
    symbol to an attribute object; the attributes are JSON scalars
    (strings of ASCII characters, integers, booleans, null), read by
    [json.loads] as the Python values above. *)
Abbreviation symbol_map_t := (gmap string (gmap string (gmap string value))).

(** An instance of [IBWrapper] together with the class-level logger it
    writes to. [self_nextOrderId] and [self_account_id] are the instance
    attributes, present once a handler has assigned them. *)
Record IBWrapper : Type := mkIBWrapper {
  con_str : string;
  con : list con_call;
  sig_multiplier : value;
  uilogger : option (list log_record);
  symbol_map : symbol_map_t;
  logger : list log_record;
  self_nextOrderId : option Z;
  self_account_id : option string;
}.

(** The class attributes [nextOrderId = 0] and [account_id = None]; no
    statement of the source assigns to them. *)
Definition class_nextOrderId : Z := 0.
Definition class_account_id : value := VNone.

(** Attribute lookup: the instance attribute when there is one, the class
    attribute otherwise. *)
Definition nextOrderId (self : IBWrapper) : Z :=
  default class_nextOrderId (self_nextOrderId self).

Definition account_id (self : IBWrapper) : value :=
  match self_account_id self with
  | Some a => VStr a
  | None => class_account_id
  end.

Definition set_con (c : list con_call) (w : IBWrapper) : IBWrapper :=
  mkIBWrapper (con_str w) c (sig_multiplier w) (uilogger w) (symbol_map w)
    (logger w) (self_nextOrderId w) (self_account_id w).

Definition set_uilogger (u : option (list log_record)) (w : IBWrapper)
  : IBWrapper :=
  mkIBWrapper (con_str w) (con w) (sig_multiplier w) u (symbol_map w)
    (logger w) (self_nextOrderId w) (self_account_id w).

Definition set_logger (l : list log_record) (w : IBWrapper) : IBWrapper :=
  mkIBWrapper (con_str w) (con w) (sig_multiplier w) (uilogger w)
    (symbol_map w) l (self_nextOrderId w) (self_account_id w).

Definition set_nextOrderId (n : Z) (w : IBWrapper) : IBWrapper :=
  mkIBWrapper (con_str w) (con w) (sig_multiplier w) (uilogger w)
    (symbol_map w) (logger w) (Some n) (self_account_id w).

Definition set_account_id (a : string) (w : IBWrapper) : IBWrapper :=
  mkIBWrapper (con_str w) (con w) (sig_multiplier w) (uilogger w)
    (symbol_map w) (logger w) (self_nextOrderId w) (Some a).

(** *** Methods as state transformers *)

(** A method body: from the adapter before the call to the value returned
    or the exception raised, and the adapter after the call. *)
Definition M (A : Type) : Type := IBWrapper → (exn + A) * IBWrapper.

#[global] Instance M_ret : MRet M := λ A a w, (inr a, w).

#[global] Instance M_bind : MBind M := λ A B f m w,
  match m w with
  | (inr a, w') => f a w'
  | (inl e, w') => (inl e, w')
  end.

Definition raise {A : Type} (e : exn) : M A := λ w, (inl e, w).
Definition read {A : Type} (f : IBWrapper → A) : M A := λ w, (inr (f w), w).
Definition update (f : IBWrapper → IBWrapper) : M unit := λ w, (inr (), f w).

(** An expression that can raise, inside a method body. *)
Definition eval {A : Type} (r : exn + A) : M A := λ w, (r, w).

(** [self.logger.info(text)] and [self.logger.error(text)]: the logger's
    level is [INFO], so both are written. *)
Definition logger_info (text : string) : M unit :=
  update (λ w, set_logger (logger w ++ [(INFO, text)]) w).

Definition logger_error (text : string) : M unit :=
  update (λ w, set_logger (logger w ++ [(ERROR, text)]) w).

(** [if self.uilogger: self.uilogger.info(text)], and the same for
    [error]. *)
Definition uilogger_log (lvl : level) (text : string) : M unit :=
  update (λ w,
    match uilogger w with
    | Some sink => set_uilogger (Some (sink ++ [(lvl, text)])) w
    | None => w
    end).

(** *** The patterns *)

Definition pattern (parts : list Re.regex) : Re.regex :=
  foldr Re.Seq Re.Eps parts.

(** [r'accountsList=(\w+)'] *)
Definition account_re : Re.regex :=
  pattern [Re.Text "accountsList="; Re.Group (Re.Plus Re.word)].

(** [r'orderId=(\d+)'] *)
Definition order_id_re : Re.regex :=
  pattern [Re.Text "orderId="; Re.Group (Re.Plus Re.digit)].

(** The pattern of [error_handler]: an opening angle bracket, any run of
    bytes other than a newline, [errorCode=], group 1 (any such run), a
    comma, one blank, [errorMsg=], group 2 (any such run) and a closing
    angle bracket; every run is greedy. *)
Definition error_re : Re.regex :=
  pattern [Re.Lit "<"; Re.Star Re.dot; Re.Text "errorCode=";
           Re.Group (Re.Star Re.dot); Re.Lit ","; Re.Chr Re.space;
           Re.Text "errorMsg="; Re.Group (Re.Star Re.dot); Re.Lit ">"].

(** *** Construction *)

(** [IBWrapper(ip, port, client_id, sig_multiplier, uilogger)]. [conf] is
    what opening and parsing [conf/ibsymbols.json] gives, [log] what the
    class-level logger holds already. The connection object is created
    and given the four registrations; the instance gets no [nextOrderId]
    and no [account_id] attribute of its own. *)
Definition init (ip : string) (port client_id : Z) (sig_multiplier : value)
    (uilogger : option (list log_record)) (conf : exn + symbol_map_t)
    (log : list log_record) : exn + IBWrapper :=
  let con_str := ip +:+ ":" +:+ py_str (VInt port) in
  let con :=
    [ConCreate ip port client_id;
     ConRegister "my_account_handler" "UpdateAccountValue";
     ConRegister "error_handler" "Error";
     ConRegister "next_valid_id_handler" "NextValidId";
     ConRegister "managed_account_handler" "ManagedAccounts"] in
  match conf with
  | inl e => inl e
  | inr symbol_map =>
      inr (mkIBWrapper con_str con sig_multiplier uilogger symbol_map log
             None None)
  end.

(** *** Logging to both sinks *)

(** [log_all(message, level)] *)
Definition log_all (message : string) (level : string) : M unit :=
  if String.eqb level "info" then
    logger_info message ;; uilogger_log INFO message
  else
    logger_error message ;; uilogger_log ERROR message.

(** *** Session *)

(** The four methods below call the connection object. What the
    connection does with the call is not the adapter's: it comes in as
    [answer], the value the connection returns or the exception it
    raises. No method catches that exception, so it leaves the method. *)

(** [connect()]; [answer] is what [self.con.connect()] does. *)
Definition connect (answer : exn + bool) : M unit :=
  update (λ w, set_con (con w ++ [ConConnect]) w) ;;
  ok ← eval answer;
  if ok : bool then
    s ← read con_str;
    logger_info ("connected to IB on " +:+ s)
  else mret ().

(** [disconnect()]; [answer] is what [self.con.disconnect()] does, after
    the line has been logged. *)
Definition disconnect (answer : exn + value) : M unit :=
  a ← read account_id;
  s ← read con_str;
  log_all ("Disconnecting IB account " +:+ py_str a +:+ " @ " +:+ s) "info" ;;
  update (λ w, set_con (con w ++ [ConDisconnect]) w) ;;
  eval answer ;;
  mret ().

(** [placeOrder(order_id, contract, order)]; [answer] is what
    [self.con.placeOrder] does; its value is returned as it is. *)
Definition placeOrder (order_id : value) (contract : Contract) (order : Order)
    (answer : exn + value) : M value :=
  update (λ w, set_con (con w ++ [ConPlaceOrder order_id contract order]) w) ;;
  eval answer.

(** [reqQuote(contract)]; [answer] is what [self.con.reqMktData] does. *)
Definition reqQuote (contract : Contract) (answer : exn + value) : M unit :=
  update (λ w, set_con (con w ++ [ConReqMktData 1 contract "" false]) w) ;;
  eval answer ;;
  mret ().

(** *** Message handlers *)

(** [my_account_handler(msg)] and [my_tick_handler(msg)] *)
Definition my_account_handler (msg : value) : M unit :=
  logger_info (py_str msg).

Definition my_tick_handler (msg : value) : M unit :=
  logger_info (py_str msg).

(** [managed_account_handler(msg)] *)
Definition managed_account_handler (msg : value) : M unit :=
  match Re.search account_re (py_str msg) with
  | Some regex =>
      update (set_account_id (Re.group regex 1)) ;;
      a ← read account_id;
      logger_info ("IB account: " +:+ py_str a)
  | None =>
      text ← eval (str_add "No account id found in msg: " msg);
      raise (ValueError text)
  end.

(** [next_valid_id_handler(msg)] *)
Definition next_valid_id_handler (msg : value) : M unit :=
  match Re.search order_id_re (py_str msg) with
  | Some regex =>
      update (set_nextOrderId (Str.int (Re.group regex 1))) ;;
      n ← read nextOrderId;
      logger_info ("next valid id: " +:+ Str.of_int n)
  | None =>
      text ← eval (str_add "No next valid id found in msg: " msg);
      raise (ValueError text)
  end.

(** [error_handler(msg)] *)
Definition error_handler (msg : value) : M unit :=
  match Re.search error_re (py_str msg) with
  | Some regex =>
      let err_code := Re.group regex 1 in
      let err_msg := Re.group regex 2 in
      logger_error ("IB Error [code: " +:+ err_code +:+ ", message: "
                    +:+ err_msg +:+ "]") ;;
      if String.eqb err_code "None"
         && Str.startswith err_msg "unpack requires a string"
      then
        a ← read account_id;
        t ← eval (str_add "IB account " a);
        log_all (t +:+ " was shutdown!") "error"
      else mret ()
  | None => logger_error ("IB Error: " +:+ py_str msg)
  end.

(** [reply_handler(msg)] *)
Definition reply_handler (msg : value) : M unit :=
  t ← eval (get_typeName msg);
  logger_info ("Server Response: " +:+ t +:+ ", " +:+ py_str msg).

(** *** Builders *)

(** [create_contract(symbol, sec_type, exch, prim_exch, curr)] *)
Definition create_contract (symbol sec_type exch prim_exch curr : string)
  : M Contract :=
  let sec_type := Str.lower sec_type in
  let symbol := Str.lower symbol in
  symbol_map ← read symbol_map;
  let prim_exch :=
    match symbol_map !! sec_type with
    | Some by_symbol =>
        match by_symbol !! symbol with
        | Some attributes =>
            match attributes !! "prim_exch" with
            | Some v => py_str v
            | None => prim_exch
            end
        | None => prim_exch
        end
    | None => prim_exch
    end in
  mret (mkContract symbol sec_type exch prim_exch curr).

(** The defaults of the signature: [exch='SMART'], [prim_exch='SMART'],
    [curr='USD']. *)
Definition create_contract_default (symbol sec_type : string) : M Contract :=
  create_contract symbol sec_type "SMART" "SMART" "USD".

(** [create_order(order_type, quantity, action)] *)
Definition create_order (order_type quantity action : value) : M Order :=
  mret (mkOrder order_type quantity action).

(** *** One call of the adapter's interface *)

(** The methods of the class, with their arguments (and, for the four
    that call the connection, what the connection does). *)
Inductive call : Type :=
| Connect (answer : exn + bool)
| Disconnect (answer : exn + value)
| PlaceOrder (order_id : value) (contract : Contract) (order : Order)
    (answer : exn + value)
| ReqQuote (contract : Contract) (answer : exn + value)
| MyAccountHandler (msg : value)
| ManagedAccountHandler (msg : value)
| MyTickHandler (msg : value)
| NextValidIdHandler (msg : value)
| ErrorHandler (msg : value)
| ReplyHandler (msg : value)
| CreateContract (symbol sec_type exch prim_exch curr : string)
| CreateOrder (order_type quantity action : value)
| LogAll (message level : string).

(** The adapter after the call, whether it returned or raised. *)
Definition run (c : call) (self : IBWrapper) : IBWrapper :=
  match c with
  | Connect a => (connect a self).2
  | Disconnect a => (disconnect a self).2
  | PlaceOrder i c o a => (placeOrder i c o a self).2
  | ReqQuote c a => (reqQuote c a self).2
  | MyAccountHandler msg => (my_account_handler msg self).2
  | ManagedAccountHandler msg => (managed_account_handler msg self).2
  | MyTickHandler msg => (my_tick_handler msg self).2
  | NextValidIdHandler msg => (next_valid_id_handler msg self).2
  | ErrorHandler msg => (error_handler msg self).2
  | ReplyHandler msg => (reply_handler msg self).2
  | CreateContract s t e p c => (create_contract s t e p c self).2
  | CreateOrder t q a => (create_order t q a self).2
  | LogAll m l => (log_all m l self).2
  end.

Definition run_all (cs : list call) (self : IBWrapper) : IBWrapper :=
  foldl (λ w c, run c w) self cs.

Definition is_next_valid_id (c : call) : bool :=
  match c with
  | NextValidIdHandler _ => true
  | _ => false
  end.

(** ** Vocabulary of the specification *)

(** The text [s] starts with the keyword [key] followed by at least one
    byte of the class [p]: a match of [key(p+)] anchored at its head. *)
Definition occurs_at (key : string) (p : ascii → bool) (s : string) : Prop :=
  ∃ c rest, s = key +:+ String c rest ∧ p c = true.

(** [text] contains the pattern [key(p+)]. *)
Definition contains (key : string) (p : ascii → bool) (text : string) : Prop :=
  ∃ pre s, text = pre +:+ s ∧ occurs_at key p s.

(** [text] is [pre], then [key], then the token [g], then [post], where
    [g] is a maximal non-empty run of bytes of the class [p] and the
    pattern does not occur at any position inside [pre]: the leftmost
    occurrence, with the longest token. *)
Definition first_token (key : string) (p : ascii → bool)
    (text pre g post : string) : Prop :=
  text = pre +:+ key +:+ g +:+ post
  ∧ g ≠ EmptyString
  ∧ Str.all p g = true
  ∧ Str.stops p post = true
  ∧ ∀ pre' s, text = pre' +:+ s → occurs_at key p s →
      String.length pre ≤ String.length pre'.

(** The shape [account_re] and [order_id_re] share: a keyword, then a
    group of one or more bytes of a class. *)
Definition token_re (key : string) (p : ascii → bool) : Re.regex :=
  pattern [Re.Text key; Re.Group (Re.Plus p)].

(** What [key(p+)] captures when matched at the head of [s]. *)
Definition leading_token (key : string) (p : ascii → bool) (s : string)
  : option string :=
  match Str.strip_prefix key s with
  | Some (String c rest) =>
      if p c then Some (String c (Str.span p rest).1) else None
  | _ => None
  end.

(** The override the symbol map holds for a security type and a symbol,
    both already in lower case. *)
Definition override (m : symbol_map_t) (sec_type symbol : string)
  : option value :=
  by_symbol ← m !! sec_type;
  attributes ← by_symbol !! symbol;
  attributes !! "prim_exch".

(** The pair is absent from the map: no entry for the security type, or
    none for the symbol under it. *)
Definition absent (m : symbol_map_t) (sec_type symbol : string) : Prop :=
  m !! sec_type = None
  ∨ ∃ by_symbol, m !! sec_type = Some by_symbol ∧ by_symbol !! symbol = None.

(** ** Sample data *)

(** A symbol map with the one override the documentation mentions
    ([GLD] trades on [ARCA]), and an adapter built over it. *)
Definition demo_map : symbol_map_t :=
  {[ "stk" := {[ "gld" := {[ "prim_exch" := VStr "ARCA" ]} ]} ]}.

Definition demo : IBWrapper :=
  mkIBWrapper "localhost:7496" [] (VInt 1) (Some []) demo_map [] None None.

(** The error the connection reports when the gateway goes away. *)
Definition shutdown_error : value :=
  VObj "Error" "error"
    ("<error id=None, errorCode=None, "
     +:+ "errorMsg=unpack requires a string argument of length 1>").

(** ** Vocabulary of the further properties *)

(** [key in s]: the text [key] occurs somewhere in [s]. *)
Fixpoint has_text (key s : string) : bool :=
  match Str.strip_prefix key s with
  | Some _ => true
  | None =>
      match s with
      | String _ s' => has_text key s'
      | EmptyString => false
      end
  end.

(** The rest of a pattern, [k], fails at every position of [s] behind
    its head. *)
Fixpoint fails_later {R : Type} (k : string → option R) (s : string) : Prop :=
  match s with
  | String _ s' => k s' = None ∧ fails_later k s'
  | EmptyString => True
  end.

(** The test [error_handler] makes for the shutdown of the account. *)
Definition shutdown_signal (text : string) : bool :=
  match Re.search error_re text with
  | Some regex =>
      String.eqb (Re.group regex 1) "None"
      && Str.startswith (Re.group regex 2) "unpack requires a string"
  | None => false
  end.

(** The exception a method call ended with, when it raised. *)
Definition raised {A : Type} (r : (exn + A) * IBWrapper) : option exn :=
  match r.1 with
  | inl e => Some e
  | inr _ => None
  end.

(** A request to the connection that registers a handler or creates the
    connection: what construction issues. *)
Definition is_setup (c : con_call) : bool :=
  match c with
  | ConCreate _ _ _ | ConRegister _ _ => true
  | _ => false
  end.

(** * Properties *)

(** ** Byte strings *)

Section StrFacts.

Implicit Types (s t u : string) (p : ascii → bool).

Lemma str_app_nil_l s : "" +:+ s = s.
Proof. reflexivity. Qed.

Lemma str_app_cons c s t : String c s +:+ t = String c (s +:+ t).
Proof. reflexivity. Qed.

Lemma str_app_assoc s t u : (s +:+ t) +:+ u = s +:+ t +:+ u.
Proof.
  induction s as [|c s IH]; [done |]. by rewrite !str_app_cons, IH.
Qed.

Lemma str_app_length s t :
  String.length (s +:+ t) = (String.length s + String.length t)%nat.
Proof.
  induction s as [|c s IH]; [done |]. rewrite str_app_cons. simpl. by rewrite IH.
Qed.

Lemma strip_prefix_app t s : Str.strip_prefix t (t +:+ s) = Some s.
Proof.
  induction t as [|c t IH]; [done |].
  rewrite str_app_cons. simpl. by rewrite Ascii.eqb_refl.
Qed.

Lemma strip_prefix_Some t s s' :
  Str.strip_prefix t s = Some s' → s = t +:+ s'.
Proof.
  revert s; induction t as [|c t IH]; intros s; simpl.
  - by intros [= ->].
  - destruct s as [|b s]; [done |].
    destruct (Ascii.eqb_spec c b) as [->|]; [|done].
    intros H. by rewrite (IH _ H), str_app_cons.
Qed.

Lemma take_app s t : Str.take (String.length s) (s +:+ t) = s.
Proof.
  induction s as [|c s IH]; [by destruct t |].
  rewrite str_app_cons. simpl. by rewrite IH.
Qed.

Lemma span_app p s :
  let '(a, b) := Str.span p s in
  s = a +:+ b ∧ Str.all p a = true ∧ Str.stops p b = true.
Proof.
  induction s as [|c s IH]; simpl; [done |].
  destruct (p c) eqn:Hc.
  - destruct (Str.span p s) as [a b]. destruct IH as (-> & Ha & Hb).
    rewrite str_app_cons. simpl. by rewrite Hc.
  - rewrite str_app_nil_l. simpl. by rewrite Hc.
Qed.

Lemma span_all_stops p a b :
  Str.all p a = true → Str.stops p b = true → Str.span p (a +:+ b) = (a, b).
Proof.
  intros Ha Hb. induction a as [|c a IH].
  - rewrite str_app_nil_l. destruct b as [|c b]; simpl in *; [done |].
    by destruct (p c).
  - rewrite str_app_cons. simpl in *.
    apply andb_true_iff in Ha as [-> Ha]. by rewrite (IH Ha).
Qed.

Lemma span_length p s :
  String.length s
  = (String.length (Str.span p s).1 + String.length (Str.span p s).2)%nat.
Proof.
  pose proof (span_app p s) as H. destruct (Str.span p s) as [a b].
  destruct H as (-> & _). apply str_app_length.
Qed.

(** [int] of a string of digits is a natural number. *)
Lemma int_acc_nonneg s acc :
  Str.all Str.is_digit s = true → (0 ≤ acc)%Z → (0 ≤ Str.int_acc acc s)%Z.
Proof.
  revert acc; induction s as [|c s IH]; intros acc Hs Hacc; simpl in *; [done |].
  apply andb_true_iff in Hs as [Hc Hs]. apply IH; [done |].
  unfold Str.is_digit, Str.between in Hc. unfold Str.digit_val.
  apply andb_true_iff in Hc as [H1 H2].
  apply N.leb_le in H1. lia.
Qed.

Lemma int_nonneg s : Str.all Str.is_digit s = true → (0 ≤ Str.int s)%Z.
Proof. intros. by apply int_acc_nonneg. Qed.

(** [lower] leaves no upper-case letter, is idempotent, and keeps the
    length. *)
Lemma lower_char_not_upper c : Str.is_upper (Str.lower_char c) = false.
Proof.
  destruct c as [[] [] [] [] [] [] [] []]; vm_compute; reflexivity.
Qed.

Lemma lower_no_upper s : Str.all (λ c, negb (Str.is_upper c)) (Str.lower s) = true.
Proof.
  induction s as [|c s IH]; simpl; [done |].
  by rewrite lower_char_not_upper, IH.
Qed.

Lemma lower_idemp s : Str.lower (Str.lower s) = Str.lower s.
Proof.
  induction s as [|c s IH]; simpl; [done |]. rewrite IH. f_equal.
  unfold Str.lower_char at 1. by rewrite lower_char_not_upper.
Qed.

End StrFacts.

(** ** The matcher *)

Section ReFacts.

Implicit Types (s t : string) (p : ascii → bool) (caps : list string).

(** A literal text matches exactly when it is a prefix. *)
Lemma exec_Text t s caps k :
  Re.exec (Re.Text t) s caps k
  = match Str.strip_prefix t s with
    | Some s' => k s' caps
    | None => None
    end.
Proof.
  revert s; induction t as [|c t IH]; intros s; simpl; [done |].
  destruct s as [|b s]; [done |].
  destruct (Ascii.eqb c b); [apply IH | done].
Qed.

(** When the rest of the pattern accepts everywhere, a greedy repetition
    takes the longest run. *)
Lemma star_greedy_longest {R} p (f : string → R) k s :
  (∀ s', k s' = Some (f s')) →
  Re.star_greedy p k s = Some (f (Str.span p s).2).
Proof.
  intros Hk. induction s as [|c s IH]; simpl; [apply Hk |].
  destruct (p c); [| apply Hk].
  rewrite IH. by destruct (Str.span p s).
Qed.

(** A greedy repetition may run over a prefix of class bytes when the
    rest of the pattern matches behind it. *)
Lemma star_greedy_skip {R} p (k : string → option R) pre s r :
  Str.all p pre = true →
  Re.star_greedy p k s = Some r →
  Re.star_greedy p k (pre +:+ s) = Some r.
Proof.
  intros Hpre Hs. induction pre as [|c pre IH]; [done |].
  rewrite str_app_cons. simpl in *.
  apply andb_true_iff in Hpre as [-> Hpre]. by rewrite (IH Hpre).
Qed.

Lemma consumed_span p c rest :
  Re.consumed (String c rest) (Str.span p rest).2
  = String c (Str.span p rest).1.
Proof.
  unfold Re.consumed. pose proof (span_app p rest) as H.
  pose proof (span_length p rest) as Hlen.
  destruct (Str.span p rest) as [a b]. destruct H as (H & _). simpl in *.
  replace (S (String.length rest) - String.length b)%nat
    with (S (String.length a)) by lia.
  simpl. f_equal. rewrite H at 1. apply take_app.
Qed.

Section Token.

Variables (key : string) (p : ascii → bool).


Lemma match_here_token s :
  Re.match_here (token_re key p) s = (λ g, [g]) <$> leading_token key p s.
Proof.
  unfold Re.match_here, token_re, leading_token. simpl. rewrite exec_Text.
  destruct (Str.strip_prefix key s) as [[|c rest]|]; simpl; [done | | done].
  destruct (p c); simpl; [| done].
  rewrite (star_greedy_longest p
             (λ s', <[0%nat := Re.consumed (String c rest) s']> [EmptyString]));
    [| done].
  by rewrite consumed_span.
Qed.

Lemma leading_token_Some s g :
  leading_token key p s = Some g →
  ∃ c rest, s = key +:+ String c rest ∧ p c = true
            ∧ g = String c (Str.span p rest).1.
Proof.
  unfold leading_token. destruct (Str.strip_prefix key s) as [[|c rest]|] eqn:E;
    [done | | done].
  destruct (p c) eqn:Hc; [| done]. intros [= <-].
  exists c, rest. by rewrite (strip_prefix_Some _ _ _ E).
Qed.

Lemma leading_token_occurs s :
  occurs_at key p s ↔ is_Some (leading_token key p s).
Proof.
  split.
  - intros (c & rest & -> & Hc). unfold leading_token.
    rewrite strip_prefix_app, Hc. eauto.
  - intros [g Hg]. apply leading_token_Some in Hg as (c & rest & -> & Hc & _).
    by exists c, rest.
Qed.

Lemma leading_token_None s :
  leading_token key p s = None ↔ ¬ occurs_at key p s.
Proof.
  rewrite leading_token_occurs, <- eq_None_not_Some. done.
Qed.

(** [re.search] finds nothing exactly when the pattern occurs nowhere. *)
Lemma search_token_None text :
  Re.search (token_re key p) text = None ↔ ¬ contains key p text.
Proof.
  induction text as [|c text IH]; simpl; rewrite match_here_token.
  - destruct (leading_token key p "") as [g|] eqn:E; simpl.
    + split; [done |]. intros H. exfalso. apply H. exists "", "".
      split; [done |]. apply leading_token_occurs. eauto.
    + split; [| done]. intros _ (pre & s & H & Hs).
      destruct pre; [| done]. rewrite str_app_nil_l in H. subst s.
      by apply leading_token_None in E.
  - destruct (leading_token key p (String c text)) as [g|] eqn:E; simpl.
    + split; [done |]. intros H. exfalso. apply H. exists "", (String c text).
      split; [done |]. apply leading_token_occurs. eauto.
    + rewrite IH. apply leading_token_None in E. split.
      * intros H (pre & s & Heq & Hs). destruct pre as [|b pre].
        -- rewrite str_app_nil_l in Heq. by subst s.
        -- rewrite str_app_cons in Heq. injection Heq as -> ->.
           apply H. by exists pre, s.
      * intros H (pre & s & -> & Hs). apply H. exists (String c pre), s.
        by rewrite str_app_cons.
Qed.

(** [re.search] returns the longest token at the leftmost occurrence. *)
Lemma search_first_token text pre g post :
  first_token key p text pre g post →
  Re.search (token_re key p) text = Some [g].
Proof.
  revert text. induction pre as [|b pre IH];
    intros text (-> & Hg & Hall & Hstop & Hleft).
  - rewrite str_app_nil_l. destruct g as [|c g]; [done |].
    assert (Re.match_here (token_re key p) (key +:+ String c g +:+ post)
            = Some [String c g]) as Hm.
    { rewrite match_here_token. unfold leading_token.
      rewrite str_app_cons, strip_prefix_app. simpl in Hall.
      apply andb_true_iff in Hall as [-> Hall].
      by rewrite (span_all_stops p g post Hall Hstop). }
    destruct (key +:+ String c g +:+ post); simpl; by rewrite Hm.
  - rewrite str_app_cons. simpl.
    destruct (Re.match_here (token_re key p)
                (String b (pre +:+ key +:+ g +:+ post))) eqn:Hm.
    + exfalso. rewrite match_here_token in Hm.
      assert (occurs_at key p (String b (pre +:+ key +:+ g +:+ post))) as Ho.
      { apply leading_token_occurs.
        destruct (leading_token key p _); [eauto | done]. }
      specialize (Hleft "" _ eq_refl Ho). simpl in Hleft. lia.
    + apply IH. repeat split; try done.
      intros pre' s Heq Ho.
      specialize (Hleft (String b pre') s). rewrite !str_app_cons, Heq in Hleft.
      specialize (Hleft eq_refl Ho). simpl in Hleft. lia.
Qed.

(** Whatever [re.search] returns is that token. *)
Lemma search_token_Some text caps :
  Re.search (token_re key p) text = Some caps →
  ∃ pre g post, caps = [g] ∧ first_token key p text pre g post.
Proof.
  revert caps. induction text as [|c text IH]; intros caps; simpl;
    rewrite match_here_token.
  - destruct (leading_token key p "") as [g|] eqn:E; simpl; [| done].
    intros [= <-]. apply leading_token_Some in E as (c & rest & Heq & Hc & ->).
    pose proof (span_app p rest) as Hsp. destruct (Str.span p rest) as [a b].
    destruct Hsp as (-> & Ha & Hb). exists "", (String c a), b.
    split; [done |]. repeat split; simpl; try done.
    + by rewrite Hc.
    + intros; lia.
  - destruct (leading_token key p (String c text)) as [g|] eqn:E; simpl.
    + intros [= <-].
      apply leading_token_Some in E as (c' & rest & Heq & Hc & ->).
      pose proof (span_app p rest) as Hsp. destruct (Str.span p rest) as [a b].
      destruct Hsp as (-> & Ha & Hb). exists "", (String c' a), b.
      split; [done |]. repeat split; simpl; try done.
      * by rewrite Hc.
      * intros; lia.
    + intros H. apply IH in H as (pre & g & post & -> & Heq & Hg & Ha & Hb & Hl).
      exists (String c pre), g, post. split; [done |].
      repeat split; try done.
      * by rewrite str_app_cons, Heq.
      * intros pre' s Heq' Ho. destruct pre' as [|b pre'].
        -- rewrite str_app_nil_l in Heq'. subst s.
           by apply leading_token_None in E.
        -- rewrite str_app_cons in Heq'. injection Heq' as -> Heq'.
           specialize (Hl pre' s Heq' Ho). simpl. lia.
Qed.

(** Taken together: there is a match exactly when the pattern occurs. *)
Lemma search_token_contains text :
  contains key p text ↔ ∃ g, Re.search (token_re key p) text = Some [g].
Proof.
  split.
  - intros H. destruct (Re.search (token_re key p) text) as [caps|] eqn:E.
    + apply search_token_Some in E as (pre & g & post & -> & _). eauto.
    + by apply search_token_None in E.
  - intros [g Hg].
    apply search_token_Some in Hg as (pre & g' & post & _ & -> & Hne & Hall & _).
    destruct g' as [|c g']; [done |]. simpl in Hall.
    apply andb_true_iff in Hall as [Hc _].
    exists pre, (key +:+ String c g' +:+ post). split; [done |].
    exists c, (g' +:+ post). by rewrite str_app_cons.
Qed.

End Token.

End ReFacts.

(** ** Methods *)

(** Unfolds a method body down to the state it computes. *)
Ltac unfold_method :=
  unfold create_contract_default, create_contract, create_order, connect,
    disconnect, placeOrder, reqQuote, my_account_handler, my_tick_handler,
    reply_handler, log_all, uilogger_log, logger_info, logger_error,
    update, read, eval, raise, mbind, M_bind, mret, M_ret.

Lemma log_all_nextOrderId message lvl w :
  nextOrderId (log_all message lvl w).2 = nextOrderId w.
Proof.
  unfold_method. destruct (String.eqb lvl "info"); simpl;
    by destruct (uilogger w).
Qed.

(** What each call does to the next order id: only the next-valid-id
    handler writes it, with the integer its pattern captured. *)
Lemma run_nextOrderId c self :
  nextOrderId (run c self)
  = match c with
    | NextValidIdHandler msg =>
        match Re.search order_id_re (py_str msg) with
        | Some regex => Str.int (Re.group regex 1)
        | None => nextOrderId self
        end
    | _ => nextOrderId self
    end.
Proof.
  destruct c as [a|a|i ct o a|ct a|msg|msg|msg|msg|msg|msg|s t e p cu|t q a|m l];
    simpl; try (unfold_method; simpl; done).
  - unfold_method. by destruct a as [e|[|]].
  - unfold_method. simpl. by destruct (uilogger self), a.
  - unfold_method. by destruct a.
  - unfold managed_account_handler.
    destruct (Re.search account_re (py_str msg)); unfold_method; simpl; [done |].
    by destruct (str_add _ msg).
  - unfold next_valid_id_handler.
    destruct (Re.search order_id_re (py_str msg)); unfold_method; simpl; [done |].
    by destruct (str_add _ msg).
  - unfold error_handler.
    destruct (Re.search error_re (py_str msg)) as [regex|];
      [| unfold_method; done].
    unfold mbind, M_bind, logger_error, update, read, eval, mret, M_ret. simpl.
    destruct (_ && _); [| done].
    destruct (str_add _ _) as [e|t]; simpl; [done |].
    by destruct (uilogger self).
  - unfold_method. by destruct (get_typeName msg).
  - apply log_all_nextOrderId.
Qed.

(** No call but the next-valid-id handler changes the next order id. *)
Lemma run_all_nextOrderId cs self :
  forallb (λ c, negb (is_next_valid_id c)) cs = true →
  nextOrderId (run_all cs self) = nextOrderId self.
Proof.
  revert self. induction cs as [|c cs IH]; intros self H; simpl in *; [done |].
  apply andb_true_iff in H as [Hc H]. unfold run_all in *. simpl.
  rewrite (IH _ H), run_nextOrderId. by destruct c.
Qed.

(** ** Builders *)

(** [create_contract] always returns, leaves the adapter as it was, and
    fills the primary exchange from the override when there is one. *)
Lemma create_contract_result symbol sec_type exch prim_exch curr self :
  create_contract symbol sec_type exch prim_exch curr self
  = (inr (mkContract (Str.lower symbol) (Str.lower sec_type) exch
            (from_option py_str prim_exch
               (override (symbol_map self) (Str.lower sec_type)
                  (Str.lower symbol)))
            curr),
     self).
Proof.
  unfold_method. unfold override. simpl.
  destruct (symbol_map self !! Str.lower sec_type) as [by_symbol|]; simpl;
    [| done].
  destruct (by_symbol !! Str.lower symbol) as [attributes|]; simpl; [| done].
  by destruct (attributes !! "prim_exch").
Qed.

(** The override is the [prim_exch] attribute found under the security
    type and then the symbol. *)
Lemma override_Some m sec_type symbol v :
  override m sec_type symbol = Some v
  ↔ ∃ by_symbol attributes,
      m !! sec_type = Some by_symbol
      ∧ by_symbol !! symbol = Some attributes
      ∧ attributes !! "prim_exch" = Some v.
Proof.
  unfold override. split.
  - destruct (m !! sec_type) as [by_symbol|]; simpl; [| done].
    destruct (by_symbol !! symbol) as [attributes|] eqn:E; simpl; [| done].
    intros H. by exists by_symbol, attributes.
  - intros (by_symbol & attributes & -> & H & H'). simpl.
    rewrite H. simpl. exact H'.
Qed.

Lemma override_absent m sec_type symbol :
  absent m sec_type symbol → override m sec_type symbol = None.
Proof.
  unfold override. intros [H | (by_symbol & H & H')]; rewrite H; simpl; [done |].
  by rewrite H'.
Qed.

(** C1. When the symbol map holds a [prim_exch] attribute for the
    lower-cased security type and symbol, the contract's primary exchange
    is that override (as [str] renders it: the override itself when it is
    a string), whatever [prim_exch] the caller passed; when the
    lower-cased security type, or the symbol under it, is absent from the
    map, the contract's primary exchange is the caller's [prim_exch]. *)
Theorem create_contract_primary_exchange
    symbol sec_type exch prim_exch curr self :
  ∃ c, create_contract symbol sec_type exch prim_exch curr self = (inr c, self)
    ∧ (∀ s, override (symbol_map self) (Str.lower sec_type) (Str.lower symbol)
            = Some (VStr s) → m_primaryExch c = s)
    ∧ (∀ v, override (symbol_map self) (Str.lower sec_type) (Str.lower symbol)
            = Some v → m_primaryExch c = py_str v)
    ∧ (absent (symbol_map self) (Str.lower sec_type) (Str.lower symbol) →
       m_primaryExch c = prim_exch).
Proof.
  eexists. split; [apply create_contract_result |]. simpl.
  split; [| split].
  - by intros s ->.
  - by intros v ->.
  - intros H. by rewrite (override_absent _ _ _ H).
Qed.

Lemma create_contract_primary_exchange_witness :
  (∃ c, create_contract "GLD" "STK" "SMART" "ISLAND" "USD" demo = (inr c, demo)
        ∧ m_primaryExch c = "ARCA")
  ∧ (∃ c, create_contract "IBM" "STK" "SMART" "ISLAND" "USD" demo
          = (inr c, demo)
          ∧ m_primaryExch c = "ISLAND").
Proof.
  split.
  - destruct (create_contract_primary_exchange
                "GLD" "STK" "SMART" "ISLAND" "USD" demo)
      as (c & Hc & Hs & _ & _).
    exists c. split; [exact Hc |]. apply Hs. vm_compute. reflexivity.
  - destruct (create_contract_primary_exchange
                "IBM" "STK" "SMART" "ISLAND" "USD" demo)
      as (c & Hc & _ & _ & Ha).
    exists c. split; [exact Hc |]. apply Ha. right.
    exists {[ "gld" := {[ "prim_exch" := VStr "ARCA" ]} ]}.
    split; vm_compute; reflexivity.
Defined.

(** The call of the module's entry point, with the defaults of the
    signature. *)
Example create_contract_gld :
  create_contract_default "gld" "stk" demo
  = (inr (mkContract "gld" "stk" "SMART" "ARCA" "USD"), demo).
Proof. vm_compute. reflexivity. Qed.

(** C2. Whatever the casing of the arguments, the contract's symbol and
    security type are the lower-cased arguments, and arguments that differ
    only in casing give the same contract; with the map entry
    [stk.gld.prim_exch = "ARCA"], the arguments [("GLD", "STK")] give
    primary exchange ["ARCA"], symbol ["gld"] and security type ["stk"]. *)
Theorem create_contract_lowercases symbol sec_type exch prim_exch curr self :
  ∃ c, create_contract symbol sec_type exch prim_exch curr self = (inr c, self)
    ∧ m_symbol c = Str.lower symbol
    ∧ m_secType c = Str.lower sec_type
    ∧ (∀ symbol' sec_type',
         Str.lower symbol' = Str.lower symbol →
         Str.lower sec_type' = Str.lower sec_type →
         create_contract symbol' sec_type' exch prim_exch curr self
         = (inr c, self))
    ∧ (symbol = "GLD" → sec_type = "STK" →
       override (symbol_map self) "stk" "gld" = Some (VStr "ARCA") →
       m_primaryExch c = "ARCA" ∧ m_symbol c = "gld" ∧ m_secType c = "stk").
Proof.
  eexists. split; [apply create_contract_result |]. simpl.
  split; [done |]. split; [done |]. split.
  - intros symbol' sec_type' Hs Ht.
    by rewrite create_contract_result, Hs, Ht.
  - intros -> -> Ho.
    change (Str.lower "STK") with "stk". change (Str.lower "GLD") with "gld".
    by rewrite Ho.
Qed.

Lemma create_contract_lowercases_witness :
  ∃ c, create_contract "GLD" "STK" "SMART" "SMART" "USD" demo = (inr c, demo)
    ∧ create_contract "Gld" "stK" "SMART" "SMART" "USD" demo = (inr c, demo)
    ∧ m_primaryExch c = "ARCA" ∧ m_symbol c = "gld" ∧ m_secType c = "stk".
Proof.
  destruct (create_contract_lowercases "GLD" "STK" "SMART" "SMART" "USD" demo)
    as (c & Hc & _ & _ & Hcase & Hex).
  exists c. split; [exact Hc |]. split.
  - apply Hcase; vm_compute; reflexivity.
  - apply Hex; vm_compute; reflexivity.
Defined.

(** C8. [create_contract] returns the same contract, field for field,
    whenever it is called with the same arguments over the same symbol
    map, also twice in a row and whatever the rest of the session state
    is; and neither [create_contract] nor [create_order] changes the
    symbol map or anything else in the adapter. *)
Theorem builders_pure
    symbol sec_type exch prim_exch curr order_type quantity action self :
  ∃ c o,
    create_contract symbol sec_type exch prim_exch curr self = (inr c, self)
    ∧ create_order order_type quantity action self = (inr o, self)
    ∧ (c1 ← create_contract symbol sec_type exch prim_exch curr;
       c2 ← create_contract symbol sec_type exch prim_exch curr;
       mret (c1, c2)) self = (inr (c, c), self)
    ∧ (∀ other, symbol_map other = symbol_map self →
         create_contract symbol sec_type exch prim_exch curr other
         = (inr c, other))
    ∧ run (CreateContract symbol sec_type exch prim_exch curr) self = self
    ∧ run (CreateOrder order_type quantity action) self = self.
Proof.
  eexists _, _. split; [apply create_contract_result |].
  split; [reflexivity |]. split; [| split; [| split]].
  - unfold mbind, M_bind. by rewrite !create_contract_result.
  - intros other H. by rewrite create_contract_result, H.
  - unfold run. by rewrite create_contract_result.
  - reflexivity.
Qed.

Lemma builders_pure_witness :
  ∃ c, create_contract "GLD" "STK" "SMART" "SMART" "USD" demo = (inr c, demo)
    ∧ create_contract "GLD" "STK" "SMART" "SMART" "USD"
        (set_nextOrderId 7 (set_account_id "U123456" demo))
      = (inr c, set_nextOrderId 7 (set_account_id "U123456" demo)).
Proof.
  destruct (builders_pure "GLD" "STK" "SMART" "SMART" "USD"
              (VStr "mkt") (VInt 200) (VStr "sell") demo)
    as (c & o & Hc & _ & _ & Hother & _).
  exists c. split; [exact Hc |]. apply Hother. reflexivity.
Defined.

(** C9. [create_order] never fails and checks nothing: for any order
    type, quantity and action it returns an order holding exactly these
    three values. *)
Theorem create_order_stores_arguments order_type quantity action self :
  ∃ o, create_order order_type quantity action self = (inr o, self)
    ∧ m_orderType o = order_type
    ∧ m_totalQuantity o = quantity
    ∧ m_action o = action.
Proof. by eexists. Qed.

Example create_order_unchecked :
  create_order (VStr "no such type") (VInt (-200)) VNone demo
  = (inr (mkOrder (VStr "no such type") (VInt (-200)) VNone), demo).
Proof. reflexivity. Qed.

(** ** Construction *)

(** Construction fails with the error of the configuration file, when
    there is one. *)
Lemma init_conf_error ip port client_id multiplier ui e log :
  init ip port client_id multiplier ui (inl e) log = inl e.
Proof. reflexivity. Qed.

(** C10. A freshly constructed adapter has next order id [0] and account
    id [None], and the next order id reads [0] for as long as no
    next-valid-id message has been handled. *)
Theorem init_defaults ip port client_id multiplier ui m log :
  ∃ self,
    init ip port client_id multiplier ui (inr m) log = inr self
    ∧ nextOrderId self = 0%Z
    ∧ account_id self = VNone
    ∧ (∀ cs, forallb (λ c, negb (is_next_valid_id c)) cs = true →
         nextOrderId (run_all cs self) = 0%Z).
Proof.
  eexists. split; [reflexivity |]. split; [reflexivity |].
  split; [reflexivity |].
  intros cs H. by rewrite run_all_nextOrderId.
Qed.

Lemma init_defaults_witness :
  ∃ self,
    init "localhost" 7496 1 (VInt 1) None (inr demo_map) [] = inr self
    ∧ nextOrderId self = 0%Z
    ∧ nextOrderId
        (run_all [Connect (inr true);
                  ManagedAccountHandler
                    (VStr "<managedAccounts accountsList=U123456>");
                  CreateOrder (VStr "mkt") (VInt 200) (VStr "sell")] self)
      = 0%Z.
Proof.
  destruct (init_defaults "localhost" 7496 1 (VInt 1) None demo_map [])
    as (self & Hinit & Hn & _ & Hcs).
  exists self. split; [exact Hinit |]. split; [exact Hn |].
  apply Hcs. reflexivity.
Defined.

(** ** Message handlers *)

Lemma search_here r s caps :
  Re.match_here r s = Some caps → Re.search r s = Some caps.
Proof. intros H. destruct s; simpl; by rewrite H. Qed.

(** *** The next-valid-id handler *)

(** On a match the handler stores the captured integer, logs it and
    returns. *)
Lemma next_valid_id_handler_match self msg pre g post :
  first_token "orderId=" Re.digit (py_str msg) pre g post →
  next_valid_id_handler msg self
  = (inr (),
     set_logger
       (logger self ++ [(INFO, "next valid id: " +:+ Str.of_int (Str.int g))])
       (set_nextOrderId (Str.int g) self)).
Proof.
  intros H. unfold next_valid_id_handler.
  change order_id_re with (token_re "orderId=" Re.digit).
  by rewrite (search_first_token _ _ _ _ _ _ H).
Qed.

(** A message that contains the pattern is handled without an exception,
    and the id stored is the one of the leftmost occurrence. *)
Lemma next_valid_id_handler_contains self msg :
  contains "orderId=" Re.digit (py_str msg) →
  ∃ pre g post,
    first_token "orderId=" Re.digit (py_str msg) pre g post
    ∧ (next_valid_id_handler msg self).1 = inr ()
    ∧ nextOrderId (next_valid_id_handler msg self).2 = Str.int g.
Proof.
  intros H. apply search_token_contains in H as [g Hg].
  apply search_token_Some in Hg as (pre & g' & post & _ & Hft).
  exists pre, g', post. split; [done |].
  by rewrite (next_valid_id_handler_match _ _ _ _ _ Hft).
Qed.

Example next_valid_id_handler_42 :
  next_valid_id_handler
    (VObj "NextValidId" "nextValidId" "<nextValidId orderId=42>") demo
  = (inr (),
     set_logger [(INFO, "next valid id: 42")] (set_nextOrderId 42 demo)).
Proof. vm_compute. reflexivity. Qed.

(** Without a match, a message that is itself a string makes the handler
    raise the value error, and nothing is stored. *)
Lemma next_valid_id_handler_str_mismatch self s :
  ¬ contains "orderId=" Re.digit s →
  next_valid_id_handler (VStr s) self
  = (inl (ValueError ("No next valid id found in msg: " +:+ s)), self).
Proof.
  intros H. apply search_token_None in H.
  unfold next_valid_id_handler.
  change order_id_re with (token_re "orderId=" Re.digit).
  cbn [py_str]. by rewrite H.
Qed.

(** C3 (divergence). Without a match, a message object, which is what
    the connection hands to the handler, does not make it raise the value
    error: building the error text with [+] fails first, with a type
    error. The next order id is unchanged. *)
Theorem next_valid_id_handler_object_mismatch self cls typeName text :
  ¬ contains "orderId=" Re.digit text →
  next_valid_id_handler (VObj cls typeName text) self
  = (inl (TypeError ("cannot concatenate 'str' and '" +:+ cls +:+ "' objects")),
     self).
Proof.
  intros H. apply search_token_None in H.
  unfold next_valid_id_handler.
  change order_id_re with (token_re "orderId=" Re.digit).
  cbn [py_str]. by rewrite H.
Qed.

Lemma next_valid_id_handler_object_mismatch_witness :
  next_valid_id_handler
    (VObj "NextValidId" "nextValidId" "<nextValidId orderId=-1>") demo
  = (inl (TypeError "cannot concatenate 'str' and 'NextValidId' objects"),
     demo).
Proof.
  apply (next_valid_id_handler_object_mismatch demo "NextValidId"
           "nextValidId" "<nextValidId orderId=-1>").
  apply search_token_None. vm_compute. reflexivity.
Defined.

(** *** The managed-accounts handler *)

Lemma managed_account_handler_match self msg pre g post :
  first_token "accountsList=" Re.word (py_str msg) pre g post →
  managed_account_handler msg self
  = (inr (),
     set_logger (logger self ++ [(INFO, "IB account: " +:+ g)])
       (set_account_id g self)).
Proof.
  intros H. unfold managed_account_handler.
  change account_re with (token_re "accountsList=" Re.word).
  by rewrite (search_first_token _ _ _ _ _ _ H).
Qed.

Lemma managed_account_handler_contains self msg :
  contains "accountsList=" Re.word (py_str msg) →
  ∃ pre g post,
    first_token "accountsList=" Re.word (py_str msg) pre g post
    ∧ (managed_account_handler msg self).1 = inr ()
    ∧ account_id (managed_account_handler msg self).2 = VStr g.
Proof.
  intros H. apply search_token_contains in H as [g Hg].
  apply search_token_Some in Hg as (pre & g' & post & _ & Hft).
  exists pre, g', post. split; [done |].
  by rewrite (managed_account_handler_match _ _ _ _ _ Hft).
Qed.

Example managed_account_handler_U123456 :
  managed_account_handler
    (VObj "ManagedAccounts" "managedAccounts"
       "<managedAccounts accountsList=U123456>") demo
  = (inr (),
     set_logger [(INFO, "IB account: U123456")] (set_account_id "U123456" demo)).
Proof. vm_compute. reflexivity. Qed.

Lemma managed_account_handler_str_mismatch self s :
  ¬ contains "accountsList=" Re.word s →
  managed_account_handler (VStr s) self
  = (inl (ValueError ("No account id found in msg: " +:+ s)), self).
Proof.
  intros H. apply search_token_None in H.
  unfold managed_account_handler.
  change account_re with (token_re "accountsList=" Re.word).
  cbn [py_str]. by rewrite H.
Qed.

(** C4 (divergence). Without a match, a message object does not make the
    handler raise the value error that carries the message: building the
    error text with [+] fails first, with a type error. The account id
    is unchanged. *)
Theorem managed_account_handler_object_mismatch self cls typeName text :
  ¬ contains "accountsList=" Re.word text →
  managed_account_handler (VObj cls typeName text) self
  = (inl (TypeError ("cannot concatenate 'str' and '" +:+ cls +:+ "' objects")),
     self).
Proof.
  intros H. apply search_token_None in H.
  unfold managed_account_handler.
  change account_re with (token_re "accountsList=" Re.word).
  cbn [py_str]. by rewrite H.
Qed.

Lemma managed_account_handler_object_mismatch_witness :
  managed_account_handler
    (VObj "ManagedAccounts" "managedAccounts" "<managedAccounts accountsList=>")
    demo
  = (inl (TypeError "cannot concatenate 'str' and 'ManagedAccounts' objects"),
     demo).
Proof.
  apply (managed_account_handler_object_mismatch demo "ManagedAccounts"
           "managedAccounts" "<managedAccounts accountsList=>").
  apply search_token_None. vm_compute. reflexivity.
Defined.

(** *** The error handler *)

(** Anchored at an opening bracket, [error_re] lets its first greedy run
    decide where [errorCode=] is looked for. *)
Lemma match_here_error_re s :
  Re.match_here error_re (String "<" s)
  = Re.star_greedy Re.dot
      (λ s', Re.exec
               (pattern [Re.Text "errorCode="; Re.Group (Re.Star Re.dot);
                         Re.Lit ","; Re.Chr Re.space; Re.Text "errorMsg=";
                         Re.Group (Re.Star Re.dot); Re.Lit ">"])
               s' [] (λ _ caps, Some caps))
      s.
Proof. reflexivity. Qed.

(** A bracketed message on one line that ends in code 201 and message
    [Order rejected] is parsed into these two groups. *)
Lemma search_order_rejected pre :
  Str.all Re.dot pre = true →
  Re.search error_re
    ("<" +:+ pre +:+ "errorCode=201, errorMsg=Order rejected>")
  = Some ["201"; "Order rejected"].
Proof.
  intros Hpre. rewrite str_app_cons, str_app_nil_l. apply search_here.
  rewrite match_here_error_re. apply star_greedy_skip; [done |].
  vm_compute. reflexivity.
Qed.

(** What the handler does once the pattern has matched with a code that
    is not the shutdown signal. *)
Lemma error_handler_match self msg caps :
  Re.search error_re (py_str msg) = Some caps →
  String.eqb (Re.group caps 1) "None"
  && Str.startswith (Re.group caps 2) "unpack requires a string" = false →
  error_handler msg self
  = (inr (),
     set_logger
       (logger self
        ++ [(ERROR, "IB Error [code: " +:+ Re.group caps 1 +:+ ", message: "
                    +:+ Re.group caps 2 +:+ "]")])
       self).
Proof.
  intros Hm Hc. unfold error_handler. rewrite Hm.
  unfold mbind, M_bind, logger_error, update. simpl. by rewrite Hc.
Qed.

(** C5. A message that matches the bracketed pattern with code [201] and
    message [Order rejected] (any one-line message of the form
    [<... errorCode=201, errorMsg=Order rejected>] does) makes the error
    handler return without an exception, and the file log afterwards is
    the log before followed by one error record with that code and
    message; a message that does not match the pattern makes it return,
    and the file log afterwards is the log before followed by one error
    record with the message itself. Nothing is sent to the
    user-interface sink in either case. *)
Theorem error_handler_logs self msg :
  (∀ caps,
     Re.search error_re (py_str msg) = Some caps →
     Re.group caps 1 = "201" → Re.group caps 2 = "Order rejected" →
     (error_handler msg self).1 = inr ()
     ∧ logger (error_handler msg self).2
       = logger self
         ++ [(ERROR, "IB Error [code: 201, message: Order rejected]")]
     ∧ uilogger (error_handler msg self).2 = uilogger self)
  ∧ (∀ pre,
       Str.all Re.dot pre = true →
       py_str msg = "<" +:+ pre +:+ "errorCode=201, errorMsg=Order rejected>" →
       (error_handler msg self).1 = inr ()
       ∧ logger (error_handler msg self).2
         = logger self
           ++ [(ERROR, "IB Error [code: 201, message: Order rejected]")]
       ∧ uilogger (error_handler msg self).2 = uilogger self)
  ∧ (Re.search error_re (py_str msg) = None →
     (error_handler msg self).1 = inr ()
     ∧ logger (error_handler msg self).2
       = logger self ++ [(ERROR, "IB Error: " +:+ py_str msg)]
     ∧ uilogger (error_handler msg self).2 = uilogger self).
Proof.
  assert (∀ caps,
     Re.search error_re (py_str msg) = Some caps →
     Re.group caps 1 = "201" → Re.group caps 2 = "Order rejected" →
     (error_handler msg self).1 = inr ()
     ∧ logger (error_handler msg self).2
       = logger self
         ++ [(ERROR, "IB Error [code: 201, message: Order rejected]")]
     ∧ uilogger (error_handler msg self).2 = uilogger self) as Hgen.
  { intros caps Hm H1 H2. rewrite (error_handler_match _ _ _ Hm).
    - by rewrite H1, H2.
    - by rewrite H1. }
  split; [exact Hgen |]. split.
  - intros pre Hpre Hmsg. apply (Hgen ["201"; "Order rejected"]); [| done..].
    rewrite Hmsg. by apply search_order_rejected.
  - intros Hm. unfold error_handler. by rewrite Hm.
Qed.

Lemma error_handler_logs_witness :
  ((error_handler
      (VObj "Error" "error"
         "<error id=1, errorCode=201, errorMsg=Order rejected>") demo).1
   = inr ()
   ∧ logger
       (error_handler
          (VObj "Error" "error"
             "<error id=1, errorCode=201, errorMsg=Order rejected>") demo).2
     = [(ERROR, "IB Error [code: 201, message: Order rejected]")])
  ∧ ((error_handler (VStr "connection reset by peer") demo).1 = inr ()
     ∧ logger (error_handler (VStr "connection reset by peer") demo).2
       = [(ERROR, "IB Error: connection reset by peer")]).
Proof.
  split.
  - destruct (proj1 (proj2 (error_handler_logs demo
       (VObj "Error" "error"
          "<error id=1, errorCode=201, errorMsg=Order rejected>")))
       "error id=1, ") as (H1 & H2 & _); [vm_compute; reflexivity.. |].
    split; [exact H1 | exact H2].
  - destruct (proj2 (proj2 (error_handler_logs demo
       (VStr "connection reset by peer")))) as (H1 & H2 & _);
      [vm_compute; reflexivity |].
    split; [exact H1 | exact H2].
Defined.

(** With no account id on the adapter, the shutdown signal makes the
    handler raise: the account id is [None] and cannot be concatenated. *)
Example error_handler_unset_account :
  (error_handler shutdown_error demo).1
  = inl (TypeError "cannot concatenate 'str' and 'NoneType' objects").
Proof. vm_compute. reflexivity. Qed.

(** The state the shutdown signal leaves when the account id is set. *)
Lemma error_handler_shutdown_state self msg a caps :
  self_account_id self = Some a →
  Re.search error_re (py_str msg) = Some caps →
  Re.group caps 1 = "None" →
  Str.startswith (Re.group caps 2) "unpack requires a string" = true →
  let shutdown := (ERROR, "IB account " +:+ a +:+ " was shutdown!") in
  let logged :=
    set_logger
      (logger self
       ++ [(ERROR, "IB Error [code: None, message: "
                   +:+ Re.group caps 2 +:+ "]"); shutdown])
      self in
  error_handler msg self
  = (inr (),
     match uilogger self with
     | Some sink => set_uilogger (Some (sink ++ [shutdown])) logged
     | None => logged
     end).
Proof.
  intros Ha Hm H1 H2. unfold error_handler. rewrite Hm, H1, H2.
  unfold mbind, M_bind, logger_error, update, read, eval, mret, M_ret.
  cbn [fst snd String.eqb Ascii.eqb Bool.eqb andb].
  unfold account_id. cbn [self_account_id set_logger]. rewrite Ha.
  cbn [str_add]. unfold log_all. cbn [String.eqb Ascii.eqb Bool.eqb].
  unfold mbind, M_bind, logger_error, uilogger_log, update.
  cbn [uilogger set_logger logger]. destruct (uilogger self); simpl.
  + rewrite str_app_assoc, <- List.app_assoc. reflexivity.
  + rewrite str_app_assoc, <- List.app_assoc. reflexivity.
Qed.

(** C6. Once the account id is set, the error handler never raises; in
    particular, when the code is the text [None] and the message starts
    with [unpack requires a string], it returns, the file log afterwards
    is the log before followed by the error record and the record of the
    shutdown of that account, and the user-interface sink, when there is
    one, is the sink before followed by that same shutdown record. *)
Theorem error_handler_safe_with_account self msg a :
  self_account_id self = Some a →
  (∃ self', error_handler msg self = (inr (), self'))
  ∧ (∀ caps,
       Re.search error_re (py_str msg) = Some caps →
       Re.group caps 1 = "None" →
       Str.startswith (Re.group caps 2) "unpack requires a string" = true →
       let shutdown := (ERROR, "IB account " +:+ a +:+ " was shutdown!") in
       (error_handler msg self).1 = inr ()
       ∧ logger (error_handler msg self).2
         = logger self
           ++ [(ERROR, "IB Error [code: None, message: "
                       +:+ Re.group caps 2 +:+ "]"); shutdown]
       ∧ uilogger (error_handler msg self).2
         = match uilogger self with
           | Some sink => Some (sink ++ [shutdown])
           | None => None
           end
       ∧ account_id (error_handler msg self).2 = VStr a).
Proof.
  intros Ha. split.
  - unfold error_handler.
    destruct (Re.search error_re (py_str msg)) as [caps|]; [| by eexists].
    unfold mbind, M_bind, logger_error, update, read, eval, mret, M_ret.
    cbn [fst snd]. destruct (_ && _); [| by eexists].
    unfold account_id. cbn [self_account_id set_logger]. rewrite Ha.
    cbn [str_add]. unfold log_all. cbn [String.eqb Ascii.eqb Bool.eqb].
    unfold mbind, M_bind, logger_error, uilogger_log, update. by eexists.
  - intros caps Hm H1 H2 shutdown.
    rewrite (error_handler_shutdown_state self msg a caps Ha Hm H1 H2).
    unfold account_id.
    destruct (uilogger self) eqn:E; cbn; rewrite ?E, ?Ha; done.
Qed.

Lemma error_handler_safe_with_account_witness :
  (error_handler shutdown_error (set_account_id "U123456" demo)).1 = inr ()
  ∧ logger (error_handler shutdown_error (set_account_id "U123456" demo)).2
    = [(ERROR, "IB Error [code: None, message: "
               +:+ "unpack requires a string argument of length 1]");
       (ERROR, "IB account U123456 was shutdown!")]
  ∧ uilogger (error_handler shutdown_error (set_account_id "U123456" demo)).2
    = Some [(ERROR, "IB account U123456 was shutdown!")].
Proof.
  destruct (proj2 (error_handler_safe_with_account
                     (set_account_id "U123456" demo) shutdown_error
                     "U123456" eq_refl)
              ["None"; "unpack requires a string argument of length 1"])
    as (H1 & H2 & H3 & _); [vm_compute; reflexivity.. |].
  split; [exact H1 |]. split; [exact H2 | exact H3].
Defined.

(** *** The next order id over time *)

(** C7 (as stated) fails: the handler overwrites the stored id with the
    one in the message, also when that one is smaller. *)
Lemma nextOrderId_can_decrease :
  ¬ ∀ self msg,
      (nextOrderId self ≤ nextOrderId (next_valid_id_handler msg self).2)%Z.
Proof.
  intros H.
  specialize (H (run (NextValidIdHandler (VStr "<nextValidId orderId=42>")) demo)
                (VStr "<nextValidId orderId=7>")).
  vm_compute in H. by apply H.
Qed.

(** C7 (amended). Only the next-valid-id handler changes the next order
    id: every other call leaves it as it was; the handler, on a message
    that contains the pattern, overwrites it with the integer of the
    leftmost occurrence, which is never negative but may be smaller than
    the id stored before; on any other message it leaves it as it was. *)
Theorem nextOrderId_written_by_handler_only self :
  (∀ c, is_next_valid_id c = false →
        nextOrderId (run c self) = nextOrderId self)
  ∧ (∀ msg pre g post,
       first_token "orderId=" Re.digit (py_str msg) pre g post →
       nextOrderId (run (NextValidIdHandler msg) self) = Str.int g
       ∧ (0 ≤ Str.int g)%Z)
  ∧ (∀ msg,
       ¬ contains "orderId=" Re.digit (py_str msg) →
       nextOrderId (run (NextValidIdHandler msg) self) = nextOrderId self).
Proof.
  split; [| split].
  - intros c Hc. rewrite run_nextOrderId. by destruct c.
  - intros msg pre g post Hft. split.
    + unfold run. by rewrite (next_valid_id_handler_match _ _ _ _ _ Hft).
    + destruct Hft as (_ & _ & Hall & _). by apply int_nonneg.
  - intros msg Hno. rewrite run_nextOrderId.
    apply search_token_None in Hno.
    change order_id_re with (token_re "orderId=" Re.digit). by rewrite Hno.
Qed.

Lemma nextOrderId_written_by_handler_only_witness :
  nextOrderId (run (ErrorHandler (VStr "no route to host"))
                 (set_nextOrderId 42 demo)) = 42%Z
  ∧ nextOrderId (run (NextValidIdHandler (VStr "<nextValidId orderId=7>"))
                   (set_nextOrderId 42 demo)) = 7%Z
  ∧ nextOrderId (run (NextValidIdHandler (VStr "<nextValidId orderId=-1>"))
                   (set_nextOrderId 42 demo)) = 42%Z.
Proof.
  destruct (nextOrderId_written_by_handler_only (set_nextOrderId 42 demo))
    as (Hother & Hmatch & Hnone).
  split; [| split].
  - apply Hother. reflexivity.
  - destruct (search_token_Some "orderId=" Re.digit
                "<nextValidId orderId=7>" ["7"])
      as (pre & g & post & Hg & Hft); [vm_compute; reflexivity |].
    injection Hg as <-.
    exact (proj1 (Hmatch (VStr "<nextValidId orderId=7>") pre "7" post Hft)).
  - apply Hnone. apply search_token_None. vm_compute. reflexivity.
Defined.

(** * Further properties *)

(** ** More on the matcher *)

Lemma search_cons r c s :
  Re.match_here r (String c s) = None →
  Re.search r (String c s) = Re.search r s.
Proof. intros H. simpl. by rewrite H. Qed.

Lemma consumed_app a b : Re.consumed (a +:+ b) b = a.
Proof.
  unfold Re.consumed. rewrite str_app_length.
  replace (String.length a + String.length b - String.length b)%nat
    with (String.length a) by lia.
  apply take_app.
Qed.

(** A text that occurs nowhere is a prefix nowhere. *)
Lemma has_text_false key s a b :
  has_text key s = false → s = a +:+ b → Str.strip_prefix key b = None.
Proof.
  revert s. induction a as [|c a IH]; intros s H ->.
  - rewrite str_app_nil_l in H. destruct b; simpl in H;
      by destruct (Str.strip_prefix key _).
  - rewrite str_app_cons in H. simpl in H.
    destruct (Str.strip_prefix key (String c (a +:+ b))); [done |].
    by apply (IH (a +:+ b)).
Qed.

Lemma has_text_tail key c s :
  has_text key (String c s) = false → has_text key s = false.
Proof.
  cbn [has_text]. by destruct (Str.strip_prefix key (String c s)).
Qed.

Lemma fails_later_everywhere {R} (k : string → option R) s :
  (∀ a b, s = a +:+ b → k b = None) → fails_later k s.
Proof.
  induction s as [|c s IH]; intros H; simpl; [done |]. split.
  - apply (H (String c "") s). done.
  - apply IH. intros a b ->. apply (H (String c a) b). done.
Qed.

(** A greedy repetition lets the rest of the pattern match where it
    stands when it matches nowhere further on. *)
Lemma star_greedy_here {R} p (k : string → option R) s :
  fails_later k s → Re.star_greedy p k s = k s.
Proof.
  induction s as [|c s IH]; intros H; simpl; [done |].
  destruct H as [H1 H2]. destruct (p c); [| done].
  by rewrite (IH H2), H1.
Qed.

(** A greedy repetition runs up to the last position where the rest of
    the pattern matches. *)
Lemma star_greedy_last {R} p (k : string → option R) a b r :
  Str.all p a = true → k b = Some r → fails_later k b →
  Re.star_greedy p k (a +:+ b) = Some r.
Proof.
  intros Ha Hk Hb. apply star_greedy_skip; [done |].
  by rewrite star_greedy_here.
Qed.

Lemma star_greedy_None {R} p (k : string → option R) s :
  k s = None → fails_later k s → Re.star_greedy p k s = None.
Proof. intros Hk H. by rewrite star_greedy_here. Qed.

(** How a pattern given as a list of parts runs, part by part. *)
Section PatternSteps.

Context (rest : list Re.regex) (caps : list string)
        (k : string → list string → option (list string)).

Lemma exec_pattern_nil s : Re.exec (pattern []) s caps k = k s caps.
Proof. reflexivity. Qed.

Lemma exec_pattern_Text t s :
  Re.exec (pattern (Re.Text t :: rest)) s caps k
  = match Str.strip_prefix t s with
    | Some s' => Re.exec (pattern rest) s' caps k
    | None => None
    end.
Proof. apply exec_Text. Qed.

Lemma exec_pattern_Chr p s :
  Re.exec (pattern (Re.Chr p :: rest)) s caps k
  = match s with
    | String c s' => if p c then Re.exec (pattern rest) s' caps k else None
    | EmptyString => None
    end.
Proof. reflexivity. Qed.

Lemma exec_pattern_Lit c s :
  Re.exec (pattern (Re.Lit c :: rest)) s caps k
  = match s with
    | String c' s' =>
        if Ascii.eqb c c' then Re.exec (pattern rest) s' caps k else None
    | EmptyString => None
    end.
Proof. reflexivity. Qed.

Lemma exec_pattern_Star p s :
  Re.exec (pattern (Re.Star p :: rest)) s caps k
  = Re.star_greedy p (λ s', Re.exec (pattern rest) s' caps k) s.
Proof. reflexivity. Qed.

Lemma exec_pattern_Group_Star p s :
  Re.exec (pattern (Re.Group (Re.Star p) :: rest)) s caps k
  = Re.star_greedy p
      (λ s', Re.exec (pattern rest) s'
               (<[length caps := Re.consumed s s']> (caps ++ [EmptyString])) k)
      s.
Proof. reflexivity. Qed.

End PatternSteps.

(** *** The pattern of the error handler, from its end to its start *)

Section ErrorPattern.

Local Abbreviation final := (λ (_ : string) (caps : list string), Some caps).

(** The message group and the closing bracket. *)
Lemma exec_error_msg g emsg :
  Str.all Re.dot emsg = true →
  Re.exec (pattern [Re.Group (Re.Star Re.dot); Re.Lit ">"])
    (emsg +:+ ">") [g] final
  = Some [g; emsg].
Proof.
  intros He. rewrite exec_pattern_Group_Star.
  apply star_greedy_last; [done | | simpl; done].
  rewrite exec_pattern_Lit, Ascii.eqb_refl, exec_pattern_nil.
  by rewrite consumed_app.
Qed.

(** From the comma on. *)
Lemma exec_error_comma g emsg :
  Str.all Re.dot emsg = true →
  Re.exec
    (pattern [Re.Lit ","; Re.Chr Re.space; Re.Text "errorMsg=";
              Re.Group (Re.Star Re.dot); Re.Lit ">"])
    (", errorMsg=" +:+ emsg +:+ ">") [g] final
  = Some [g; emsg].
Proof.
  intros He.
  change (", errorMsg=" +:+ emsg +:+ ">")
    with (String "," (String " " ("errorMsg=" +:+ emsg +:+ ">"))).
  rewrite exec_pattern_Lit, Ascii.eqb_refl, exec_pattern_Chr.
  change (Re.space " ") with true. cbv iota.
  rewrite exec_pattern_Text, strip_prefix_app. by apply exec_error_msg.
Qed.

Lemma exec_error_comma_None b caps :
  (∀ w s, b = String "," (String w s) →
          Str.strip_prefix "errorMsg=" s = None) →
  Re.exec
    (pattern [Re.Lit ","; Re.Chr Re.space; Re.Text "errorMsg=";
              Re.Group (Re.Star Re.dot); Re.Lit ">"])
    b caps final
  = None.
Proof.
  intros H. rewrite exec_pattern_Lit. destruct b as [|c b]; [done |].
  destruct (Ascii.eqb_spec "," c) as [<-|]; [| done].
  rewrite exec_pattern_Chr. destruct b as [|w s]; [done |].
  destruct (Re.space w); [| done].
  by rewrite exec_pattern_Text, (H w s eq_refl).
Qed.

(** From [errorCode=] on: with no [errorMsg=] further on, the two groups
    are the code and the message. *)
Lemma exec_error_code code emsg :
  Str.all Re.dot code = true → Str.all Re.dot emsg = true →
  has_text "errorMsg=" (emsg +:+ ">") = false →
  Re.exec
    (pattern [Re.Text "errorCode="; Re.Group (Re.Star Re.dot);
              Re.Lit ","; Re.Chr Re.space; Re.Text "errorMsg=";
              Re.Group (Re.Star Re.dot); Re.Lit ">"])
    ("errorCode=" +:+ code +:+ ", errorMsg=" +:+ emsg +:+ ">") [] final
  = Some [code; emsg].
Proof.
  intros Hc He Hno.
  rewrite exec_pattern_Text, strip_prefix_app, exec_pattern_Group_Star.
  apply star_greedy_last; [done | |].
  - rewrite consumed_app. by apply exec_error_comma.
  - change (", errorMsg=" +:+ emsg +:+ ">")
      with (String "," (String " " (String "e" (String "r" (String "r"
             (String "o" (String "r" (String "M" (String "s" (String "g"
             (String "=" (emsg +:+ ">")))))))))))).
    cbn [fails_later].
    assert (∀ a b caps, emsg +:+ ">" = a +:+ b →
              Re.exec
                (pattern [Re.Lit ","; Re.Chr Re.space; Re.Text "errorMsg=";
                          Re.Group (Re.Star Re.dot); Re.Lit ">"])
                b caps final = None) as Htail.
    { intros a b caps Hab. apply exec_error_comma_None. intros w s ->.
      apply (has_text_false _ (emsg +:+ ">")
               (a +:+ String "," (String w "")) s); [done |].
      by rewrite Hab, str_app_assoc. }
    repeat (split; [by apply exec_error_comma_None |]).
    split; [by apply (Htail "") |].
    apply fails_later_everywhere. intros a b Hab. by apply (Htail a).
Qed.

Lemma exec_error_code_None b :
  Str.strip_prefix "errorCode=" b = None →
  Re.exec
    (pattern [Re.Text "errorCode="; Re.Group (Re.Star Re.dot);
              Re.Lit ","; Re.Chr Re.space; Re.Text "errorMsg=";
              Re.Group (Re.Star Re.dot); Re.Lit ">"])
    b [] final
  = None.
Proof. intros H. by rewrite exec_pattern_Text, H. Qed.

(** A bracketed message on one line is parsed at its last [errorCode=]
    and its last [errorMsg=]. *)
Lemma search_error_fields pre code emsg :
  Str.all Re.dot pre = true →
  Str.all Re.dot code = true →
  Str.all Re.dot emsg = true →
  has_text "errorCode=" (code +:+ ", errorMsg=" +:+ emsg +:+ ">") = false →
  has_text "errorMsg=" (emsg +:+ ">") = false →
  Re.search error_re
    ("<" +:+ pre +:+ "errorCode=" +:+ code +:+ ", errorMsg=" +:+ emsg +:+ ">")
  = Some [code; emsg].
Proof.
  intros Hp Hc He Hno1 Hno2. rewrite str_app_cons, str_app_nil_l.
  apply search_here. rewrite match_here_error_re.
  apply star_greedy_last; [done | by apply exec_error_code |].
  set (t := code +:+ ", errorMsg=" +:+ emsg +:+ ">") in *.
  change ("errorCode=" +:+ t)
    with (String "e" (String "r" (String "r" (String "o" (String "r"
           (String "C" (String "o" (String "d" (String "e" (String "=" t)))))))))).
  cbn [fails_later].
  repeat (split; [by apply exec_error_code_None |]).
  split.
  - apply exec_error_code_None. by apply (has_text_false _ t "" t).
  - apply fails_later_everywhere. intros a b Hab.
    apply exec_error_code_None. by apply (has_text_false _ t a b).
Qed.

(** A message without [errorCode=] does not match. *)
Lemma search_error_no_code text :
  has_text "errorCode=" text = false → Re.search error_re text = None.
Proof.
  assert (∀ s, has_text "errorCode=" s = false →
               Re.match_here error_re s = None) as Hhere.
  { intros s H. destruct s as [|c s]; [done |].
    destruct (Ascii.eqb_spec "<" c) as [<-|Hne].
    - rewrite match_here_error_re. apply star_greedy_None.
      + apply exec_error_code_None.
        by apply (has_text_false _ (String "<" s) (String "<" "") s).
      + apply fails_later_everywhere. intros a b ->.
        apply exec_error_code_None.
        by apply (has_text_false _ (String "<" (a +:+ b)) (String "<" a) b).
    - unfold Re.match_here, error_re. rewrite exec_pattern_Lit.
      by destruct (Ascii.eqb_spec "<" c). }
  induction text as [|c text IH]; intros H.
  - reflexivity.
  - rewrite search_cons by by apply Hhere.
    apply IH. by apply (has_text_tail _ c).
Qed.

End ErrorPattern.

(** ** The error handler, further *)

(** X1. For a bracketed one-line message
    [<... errorCode=C, errorMsg=M>] in which no [errorCode=] follows the
    one before [C] and no [errorMsg=] follows the one before [M], the
    error handler returns, and the file log afterwards is the log before
    followed by one error record with exactly code [C] and message [M],
    with or without an account id, unless [C] and [M] are the shutdown
    signal; the user-interface sink is left as it was. *)
Theorem error_handler_reads_last_fields self msg pre code emsg :
  py_str msg
  = "<" +:+ pre +:+ "errorCode=" +:+ code +:+ ", errorMsg=" +:+ emsg +:+ ">" →
  Str.all Re.dot pre = true →
  Str.all Re.dot code = true →
  Str.all Re.dot emsg = true →
  has_text "errorCode=" (code +:+ ", errorMsg=" +:+ emsg +:+ ">") = false →
  has_text "errorMsg=" (emsg +:+ ">") = false →
  String.eqb code "None" && Str.startswith emsg "unpack requires a string"
  = false →
  (error_handler msg self).1 = inr ()
  ∧ logger (error_handler msg self).2
    = logger self
      ++ [(ERROR, "IB Error [code: " +:+ code +:+ ", message: "
                  +:+ emsg +:+ "]")]
  ∧ uilogger (error_handler msg self).2 = uilogger self.
Proof.
  intros Hmsg Hp Hc He Hno1 Hno2 Hsig.
  rewrite (error_handler_match self msg [code; emsg]); [done | | exact Hsig].
  rewrite Hmsg. by apply search_error_fields.
Qed.

Lemma error_handler_reads_last_fields_witness :
  logger
    (error_handler
       (VObj "Error" "error"
          "<error id=7, errorCode=399, errorMsg=Order Message: BUY 100, a>b>")
       demo).2
  = [(ERROR, "IB Error [code: 399, message: Order Message: BUY 100, a>b]")].
Proof.
  apply (error_handler_reads_last_fields demo
           (VObj "Error" "error"
              "<error id=7, errorCode=399, errorMsg=Order Message: BUY 100, a>b>")
           "error id=7, " "399" "Order Message: BUY 100, a>b");
    vm_compute; reflexivity.
Defined.

(** X2. A message in which [errorCode=] does not occur is not parsed:
    the error handler returns, with or without an account id, and the
    file log afterwards is the log before followed by one error record
    holding the message itself; the user-interface sink is left as it
    was. *)
Theorem error_handler_without_error_code self msg :
  has_text "errorCode=" (py_str msg) = false →
  (error_handler msg self).1 = inr ()
  ∧ logger (error_handler msg self).2
    = logger self ++ [(ERROR, "IB Error: " +:+ py_str msg)]
  ∧ uilogger (error_handler msg self).2 = uilogger self.
Proof.
  intros H. unfold error_handler. by rewrite (search_error_no_code _ H).
Qed.

Lemma error_handler_without_error_code_witness :
  logger
    (error_handler (VStr "<error id=-1, errorMsg=socket closed>") demo).2
  = [(ERROR, "IB Error: <error id=-1, errorMsg=socket closed>")].
Proof.
  apply (error_handler_without_error_code demo
           (VStr "<error id=-1, errorMsg=socket closed>")).
  vm_compute. reflexivity.
Defined.

(** X3. A bracketed one-line message with code [None] and a message [M]
    that starts with [unpack requires a string] (and no further
    [errorCode=] or [errorMsg=] behind them) makes the error handler of
    an adapter without an account id raise a type error; the file log
    afterwards is the log before followed by the error record for [None]
    and [M] only, without the shutdown record, and the user-interface
    sink is left as it was. *)
Theorem error_handler_shutdown_without_account self msg pre emsg :
  self_account_id self = None →
  py_str msg = "<" +:+ pre +:+ "errorCode=None, errorMsg=" +:+ emsg +:+ ">" →
  Str.all Re.dot pre = true →
  Str.all Re.dot emsg = true →
  has_text "errorCode=" ("None, errorMsg=" +:+ emsg +:+ ">") = false →
  has_text "errorMsg=" (emsg +:+ ">") = false →
  Str.startswith emsg "unpack requires a string" = true →
  (error_handler msg self).1
  = inl (TypeError "cannot concatenate 'str' and 'NoneType' objects")
  ∧ logger (error_handler msg self).2
    = logger self
      ++ [(ERROR, "IB Error [code: None, message: " +:+ emsg +:+ "]")]
  ∧ uilogger (error_handler msg self).2 = uilogger self.
Proof.
  intros Ha Hmsg Hp He Hno1 Hno2 Hstart.
  assert (Re.search error_re (py_str msg) = Some ["None"; emsg]) as Hm.
  { rewrite Hmsg.
    change ("errorCode=None, errorMsg=" +:+ emsg +:+ ">")
      with ("errorCode=" +:+ "None" +:+ ", errorMsg=" +:+ emsg +:+ ">").
    by apply search_error_fields. }
  unfold error_handler. rewrite Hm.
  unfold mbind, M_bind, logger_error, update, read, eval, mret, M_ret.
  cbn [fst snd]. change (Re.group ["None"; emsg] 1) with "None".
  change (Re.group ["None"; emsg] 2) with emsg. rewrite Hstart.
  cbn [String.eqb Ascii.eqb Bool.eqb andb].
  unfold account_id. cbn [self_account_id set_logger]. by rewrite Ha.
Qed.

Lemma error_handler_shutdown_without_account_witness :
  (error_handler shutdown_error demo).1
  = inl (TypeError "cannot concatenate 'str' and 'NoneType' objects")
  ∧ logger (error_handler shutdown_error demo).2
    = [(ERROR, "IB Error [code: None, message: "
               +:+ "unpack requires a string argument of length 1]")].
Proof.
  destruct (error_handler_shutdown_without_account demo shutdown_error
              "error id=None, "
              "unpack requires a string argument of length 1")
    as (H1 & H2 & _); try (vm_compute; reflexivity).
  split; [exact H1 | exact H2].
Defined.

(** ** Logging and the session *)

(** X5. [disconnect] raises exactly when the connection does, never for
    lack of an account id, which it prints as [None]. Whatever the
    connection does, the file log afterwards is the log before followed
    by the info record of the disconnection, the user-interface sink
    (when there is one) is the sink before followed by that same record,
    and the requests to the connection are those before followed by the
    request to disconnect. *)
Theorem disconnect_logs_and_closes self answer :
  let account :=
    match self_account_id self with
    | Some a => a
    | None => "None"
    end in
  let line :=
    (INFO, "Disconnecting IB account " +:+ account +:+ " @ " +:+ con_str self)
  in
  (disconnect answer self).1
  = match answer with
    | inl e => inl e
    | inr _ => inr ()
    end
  ∧ logger (disconnect answer self).2 = logger self ++ [line]
  ∧ uilogger (disconnect answer self).2
    = match uilogger self with
      | Some sink => Some (sink ++ [line])
      | None => None
      end
  ∧ con (disconnect answer self).2 = con self ++ [ConDisconnect].
Proof.
  unfold disconnect, account_id, class_account_id. unfold_method. simpl.
  destruct (self_account_id self), (uilogger self) eqn:E, answer;
    cbn; rewrite ?E; done.
Qed.

(** X6. For an adapter constructed with host [ip] and port [port],
    [connect] raises exactly when the connection does; the file log
    afterwards is the log before followed by the info record
    [connected to IB on ip:port] (the port in decimal) when the
    connection answered true, and the log before, unchanged, when it
    answered false or raised; the requests to the connection are those of
    construction followed by one request to connect. *)
Theorem connect_after_init ip port client_id multiplier ui m log answer :
  ∃ self,
    init ip port client_id multiplier ui (inr m) log = inr self
    ∧ (connect answer self).1
      = match answer with
        | inl e => inl e
        | inr _ => inr ()
        end
    ∧ logger (connect answer self).2
      = match answer with
        | inr true =>
            log ++ [(INFO, "connected to IB on " +:+ ip +:+ ":"
                           +:+ Str.of_int port)]
        | _ => log
        end
    ∧ con (connect answer self).2 = con self ++ [ConConnect].
Proof.
  eexists. split; [reflexivity |]. by destruct answer as [e|[|]].
Qed.

(** X7. [placeOrder] raises or returns exactly what the connection does,
    after the request with its three arguments has been added to the
    requests made; it does not advance the next order id, so two orders
    placed in a row with the id read from the adapter reach the
    connection with the same id. *)
Theorem place_order_keeps_next_id self c1 o1 a1 c2 o2 a2 :
  let twice :=
    (i1 ← read nextOrderId;
     r1 ← placeOrder (VInt i1) c1 o1 (inr a1);
     i2 ← read nextOrderId;
     r2 ← placeOrder (VInt i2) c2 o2 (inr a2);
     mret (r1, r2)) self in
  (∀ i c o answer,
     (placeOrder i c o answer self).1 = answer
     ∧ con (placeOrder i c o answer self).2
       = con self ++ [ConPlaceOrder i c o]
     ∧ nextOrderId (placeOrder i c o answer self).2 = nextOrderId self)
  ∧ twice.1 = inr (a1, a2)
  ∧ con twice.2
    = con self
      ++ [ConPlaceOrder (VInt (nextOrderId self)) c1 o1;
          ConPlaceOrder (VInt (nextOrderId self)) c2 o2]
  ∧ nextOrderId twice.2 = nextOrderId self.
Proof.
  split.
  - intros i c o answer. unfold_method. by destruct answer.
  - unfold_method. cbn. by rewrite <- List.app_assoc.
Qed.

(** ** What a session keeps *)

(** Takes a call apart into the paths its method can take. *)
Ltac run_paths c :=
  destruct c; unfold run, raised;
  unfold managed_account_handler, next_valid_id_handler, error_handler;
  unfold_method; unfold account_id, class_account_id, str_add, get_typeName;
  cbn [fst snd];
  repeat case_match; simplify_eq; cbn [fst snd] in *.

Lemma run_configuration c self :
  symbol_map (run c self) = symbol_map self
  ∧ con_str (run c self) = con_str self
  ∧ sig_multiplier (run c self) = sig_multiplier self.
Proof. run_paths c; done. Qed.

Lemma run_all_snoc cs c self :
  run_all (cs ++ [c]) self = run c (run_all cs self).
Proof. unfold run_all. by rewrite foldl_app. Qed.

Lemma run_all_configuration cs self :
  symbol_map (run_all cs self) = symbol_map self
  ∧ con_str (run_all cs self) = con_str self
  ∧ sig_multiplier (run_all cs self) = sig_multiplier self.
Proof.
  induction cs as [|c cs IH] using rev_ind; [done |].
  rewrite run_all_snoc. destruct (run_configuration c (run_all cs self))
    as (-> & -> & ->). exact IH.
Qed.

(** X8. No call changes the symbol map, so a contract built at any
    point of a session is the one that would have been built at its
    start. *)
Theorem create_contract_stable_over_session
    cs self symbol sec_type exch prim_exch curr :
  symbol_map (run_all cs self) = symbol_map self
  ∧ (create_contract symbol sec_type exch prim_exch curr (run_all cs self)).1
    = (create_contract symbol sec_type exch prim_exch curr self).1.
Proof.
  destruct (run_all_configuration cs self) as (Hm & _ & _).
  split; [exact Hm |]. by rewrite !create_contract_result, Hm.
Qed.

(** *** The account id *)

(** What each call does to the account id. *)
Lemma run_account_id c self :
  self_account_id (run c self)
  = match c with
    | ManagedAccountHandler msg =>
        match Re.search account_re (py_str msg) with
        | Some regex => Some (Re.group regex 1)
        | None => self_account_id self
        end
    | _ => self_account_id self
    end.
Proof. run_paths c; done. Qed.

Lemma run_all_account_id_set cs self :
  is_Some (self_account_id self) →
  is_Some (self_account_id (run_all cs self)).
Proof.
  intros H. induction cs as [|c cs IH] using rev_ind; [done |].
  rewrite run_all_snoc, run_account_id.
  destruct c; try done. by destruct (Re.search account_re (py_str msg)).
Qed.

Lemma error_handler_returns self msg :
  is_Some (self_account_id self) → (error_handler msg self).1 = inr ().
Proof.
  intros [a Ha]. unfold error_handler.
  unfold_method. unfold account_id, str_add. cbn [fst snd].
  repeat case_match; simplify_eq; cbn [fst snd] in *; try done.
  all: cbn [self_account_id set_logger] in *; congruence.
Qed.

(** X9. Once an account id is stored, it stays stored (possibly replaced
    by another) through any sequence of calls, and from then on the error
    handler returns normally on every message. *)
Theorem account_id_stays_set self a cs :
  self_account_id self = Some a →
  (∃ a', account_id (run_all cs self) = VStr a')
  ∧ ∀ msg, (error_handler msg (run_all cs self)).1 = inr ().
Proof.
  intros Ha.
  assert (is_Some (self_account_id (run_all cs self))) as Hset
    by (apply run_all_account_id_set; eauto).
  split.
  - destruct Hset as [a' Ha']. exists a'. unfold account_id. by rewrite Ha'.
  - intros msg. by apply error_handler_returns.
Qed.

Lemma account_id_stays_set_witness :
  let later :=
    run_all [Connect (inr false); ErrorHandler (VStr "no route to host");
             ManagedAccountHandler (VStr "<managedAccounts accountsList=>");
             Disconnect (inl (OtherError "socket.error" "closed"))]
      (set_account_id "U123456" demo) in
  (∃ a', account_id later = VStr a')
  ∧ (error_handler shutdown_error later).1 = inr ().
Proof.
  destruct (account_id_stays_set (set_account_id "U123456" demo) "U123456"
              [Connect (inr false); ErrorHandler (VStr "no route to host");
               ManagedAccountHandler (VStr "<managedAccounts accountsList=>");
               Disconnect (inl (OtherError "socket.error" "closed"))]
              eq_refl) as [H1 H2].
  split; [exact H1 | exact (H2 shutdown_error)].
Defined.

(** X10. Only the managed-accounts handler changes the account id: a
    message that contains the pattern replaces whatever is stored by the
    first token (so the id is not set once and for all), any other
    message leaves it, and so does every other call. *)
Theorem account_id_written_by_handler_only self :
  (∀ c, (∀ msg, c ≠ ManagedAccountHandler msg) →
        account_id (run c self) = account_id self)
  ∧ (∀ msg pre g post,
       first_token "accountsList=" Re.word (py_str msg) pre g post →
       account_id (run (ManagedAccountHandler msg) self) = VStr g)
  ∧ (∀ msg,
       ¬ contains "accountsList=" Re.word (py_str msg) →
       account_id (run (ManagedAccountHandler msg) self) = account_id self).
Proof.
  split; [| split].
  - intros c Hc. unfold account_id. rewrite run_account_id.
    destruct c; try done. by destruct (Hc msg).
  - intros msg pre g post Hft. unfold run.
    by rewrite (managed_account_handler_match _ _ _ _ _ Hft).
  - intros msg Hno. unfold account_id. rewrite run_account_id.
    apply search_token_None in Hno.
    change account_re with (token_re "accountsList=" Re.word).
    by rewrite Hno.
Qed.

Lemma account_id_written_by_handler_only_witness :
  account_id (run (NextValidIdHandler (VStr "<nextValidId orderId=7>"))
                (set_account_id "U123456" demo)) = VStr "U123456"
  ∧ account_id
      (run (ManagedAccountHandler (VStr "<managedAccounts accountsList=DU9,DU10>"))
         (set_account_id "U123456" demo)) = VStr "DU9"
  ∧ account_id (run (ManagedAccountHandler (VStr "<managedAccounts accountsList=>"))
                  (set_account_id "U123456" demo)) = VStr "U123456".
Proof.
  destruct (account_id_written_by_handler_only (set_account_id "U123456" demo))
    as (Hother & Hmatch & Hnone).
  split; [| split].
  - apply Hother. discriminate.
  - destruct (search_token_Some "accountsList=" Re.word
                "<managedAccounts accountsList=DU9,DU10>" ["DU9"])
      as (pre & g & post & Hg & Hft); [vm_compute; reflexivity |].
    injection Hg as <-.
    exact (Hmatch (VStr "<managedAccounts accountsList=DU9,DU10>")
             pre "DU9" post Hft).
  - apply Hnone. apply search_token_None. vm_compute. reflexivity.
Defined.

(** *** The next order id *)

Lemma run_nextOrderId_nonneg c self :
  (0 ≤ nextOrderId self)%Z → (0 ≤ nextOrderId (run c self))%Z.
Proof.
  intros H. rewrite run_nextOrderId. destruct c; try done.
  change order_id_re with (token_re "orderId=" Re.digit).
  destruct (Re.search _ (py_str msg)) as [regex|] eqn:E; [| done].
  apply search_token_Some in E as (pre & g & post & -> & _ & _ & Hall & _).
  by apply int_nonneg.
Qed.

(** X11. The next order id of an adapter is never negative, whatever
    calls and messages follow its construction. *)
Theorem nextOrderId_never_negative ip port client_id multiplier ui m log cs :
  ∃ self,
    init ip port client_id multiplier ui (inr m) log = inr self
    ∧ (0 ≤ nextOrderId (run_all cs self))%Z.
Proof.
  eexists. split; [reflexivity |].
  induction cs as [|c cs IH] using rev_ind; [done |].
  rewrite run_all_snoc. by apply run_nextOrderId_nonneg.
Qed.

Lemma run_nextOrderId_congr c w1 w2 :
  nextOrderId w1 = nextOrderId w2 →
  nextOrderId (run c w1) = nextOrderId (run c w2).
Proof.
  intros H. rewrite !run_nextOrderId. destruct c; try done.
  by destruct (Re.search order_id_re (py_str msg)).
Qed.

(** X12. The next order id after a sequence of calls is decided by the
    next-valid-id messages in it alone: dropping every other call from
    the sequence gives the same id. *)
Theorem nextOrderId_decided_by_messages cs self :
  nextOrderId (run_all cs self)
  = nextOrderId (run_all (List.filter is_next_valid_id cs) self).
Proof.
  induction cs as [|c cs IH] using rev_ind; [done |].
  rewrite List.filter_app, run_all_snoc. simpl.
  destruct (is_next_valid_id c) eqn:Hc.
  - rewrite run_all_snoc. by apply run_nextOrderId_congr.
  - rewrite List.app_nil_r, <- IH, run_nextOrderId. by destruct c.
Qed.

(** *** Logs, requests and exceptions *)

Lemma run_appends c self :
  (∃ l, logger (run c self) = logger self ++ l)
  ∧ (∃ l, con (run c self) = con self ++ l
          ∧ List.filter is_setup l = [])
  ∧ (uilogger self = None → uilogger (run c self) = None)
  ∧ (∀ sink, uilogger self = Some sink →
             ∃ l, uilogger (run c self) = Some (sink ++ l)).
Proof.
  run_paths c.
  all: cbn [logger con uilogger set_logger set_con set_uilogger
            set_account_id set_nextOrderId] in *.
  all: repeat split; intros; simplify_eq.
  all: repeat rewrite <- List.app_assoc.
  all: try done; try congruence.
  all: try (by eexists).
  all: try (by exists []; rewrite ?List.app_nil_r).
Qed.

(** X13. Through any sequence of calls the file log, the
    user-interface sink and the list of requests made to the connection
    only grow at their end, an adapter without a user-interface sink
    never gets one, and no call creates a connection or registers a
    handler: the registrations are those of construction. *)
Theorem session_only_appends cs self :
  (∃ l, logger (run_all cs self) = logger self ++ l)
  ∧ (∃ l, con (run_all cs self) = con self ++ l
          ∧ List.filter is_setup l = [])
  ∧ (uilogger self = None → uilogger (run_all cs self) = None)
  ∧ (∀ sink, uilogger self = Some sink →
             ∃ l, uilogger (run_all cs self) = Some (sink ++ l)).
Proof.
  induction cs as [|c cs IH] using rev_ind.
  - repeat split.
    + exists []. by rewrite List.app_nil_r.
    + exists []. by rewrite List.app_nil_r.
    + done.
    + intros sink H. exists []. by rewrite List.app_nil_r.
  - rewrite run_all_snoc.
    destruct IH as ((l1 & H1) & (l2 & H2 & F2) & Hn & Hs).
    destruct (run_appends c (run_all cs self))
      as ((k1 & K1) & (k2 & K2 & G2) & Kn & Ks).
    repeat split.
    + exists (l1 ++ k1). by rewrite K1, H1, List.app_assoc.
    + exists (l2 ++ k2). split.
      * by rewrite K2, H2, List.app_assoc.
      * by rewrite List.filter_app, F2, G2.
    + intros H. by apply Kn, Hn.
    + intros sink H. destruct (Hs sink H) as (l3 & H3).
      destruct (Ks _ H3) as (k3 & K3). exists (l3 ++ k3).
      by rewrite K3, List.app_assoc.
Qed.

Lemma session_only_appends_witness :
  ∃ l,
    uilogger
      (run_all [ErrorHandler shutdown_error; LogAll "bye" "info";
                Disconnect (inr VNone)]
         (set_account_id "U123456"
            (set_uilogger (Some [(INFO, "ui started")]) demo)))
    = Some ([(INFO, "ui started")] ++ l).
Proof.
  apply (proj2 (proj2 (proj2 (session_only_appends
           [ErrorHandler shutdown_error; LogAll "bye" "info";
            Disconnect (inr VNone)]
           (set_account_id "U123456"
              (set_uilogger (Some [(INFO, "ui started")]) demo)))))).
  reflexivity.
Defined.

(** Every record the user-interface sink gets is also written to the
    file log, by the same call and in the same order. *)
Lemma run_mirrors c self sink :
  uilogger self = Some sink →
  ∃ file ui,
    logger (run c self) = logger self ++ file
    ∧ uilogger (run c self) = Some (sink ++ ui)
    ∧ ui `sublist_of` file.
Proof.
  intros Hsink. run_paths c.
  all: cbn [logger con uilogger set_logger set_con set_uilogger
            set_account_id set_nextOrderId] in *.
  all: simplify_eq; repeat rewrite <- List.app_assoc.
  all: first
    [ by (exists [], []; rewrite !List.app_nil_r)
    | by (eexists _, []; split_and!;
          [reflexivity | by rewrite List.app_nil_r | apply sublist_nil_l])
    | by (eexists _, _; split_and!;
          [reflexivity | reflexivity | repeat constructor]) ].
Qed.

(** X4. Whatever reaches the user-interface sink is in the file log
    too: over any sequence of calls, the records added to the sink are,
    in the same order, among the records added to the file log. *)
Theorem ui_sink_mirrors_file_log cs self sink :
  uilogger self = Some sink →
  ∃ file ui,
    logger (run_all cs self) = logger self ++ file
    ∧ uilogger (run_all cs self) = Some (sink ++ ui)
    ∧ ui `sublist_of` file.
Proof.
  intros Hsink. induction cs as [|c cs IH] using rev_ind.
  - exists [], []. by rewrite !List.app_nil_r.
  - rewrite run_all_snoc. destruct IH as (file & ui & H1 & H2 & H3).
    destruct (run_mirrors c _ _ H2) as (file' & ui' & K1 & K2 & K3).
    exists (file ++ file'), (ui ++ ui'). split_and!.
    + by rewrite K1, H1, List.app_assoc.
    + by rewrite K2, List.app_assoc.
    + by apply sublist_app.
Qed.

Lemma ui_sink_mirrors_file_log_witness :
  ∃ file ui,
    logger
      (run_all [ErrorHandler shutdown_error; LogAll "bye" "info";
                MyAccountHandler (VStr "cash 100")]
         (set_account_id "U123456" demo))
    = file
    ∧ ui = [(ERROR, "IB account U123456 was shutdown!"); (INFO, "bye")]
    ∧ ui `sublist_of` file.
Proof.
  destruct (ui_sink_mirrors_file_log
              [ErrorHandler shutdown_error; LogAll "bye" "info";
               MyAccountHandler (VStr "cash 100")]
              (set_account_id "U123456" demo) [] eq_refl)
    as (file & ui & H1 & H2 & H3).
  exists file, ui. split; [exact H1 |]. split; [| exact H3].
  vm_compute in H2. by injection H2.
Defined.

(** X14. The message handlers that can raise, and when: the
    managed-accounts and next-valid-id handlers exactly when the message
    does not contain their pattern, the error handler exactly on the
    shutdown signal with no account id stored, the reply handler exactly
    on a message that is not a message object. The two handlers that
    only log the message never raise. *)
Theorem handler_outcomes msg self :
  (is_Some (raised (managed_account_handler msg self))
   ↔ ¬ contains "accountsList=" Re.word (py_str msg))
  ∧ (is_Some (raised (next_valid_id_handler msg self))
     ↔ ¬ contains "orderId=" Re.digit (py_str msg))
  ∧ (is_Some (raised (error_handler msg self))
     ↔ self_account_id self = None ∧ shutdown_signal (py_str msg) = true)
  ∧ (is_Some (raised (reply_handler msg self))
     ↔ ∀ cls typeName text, msg ≠ VObj cls typeName text)
  ∧ raised (my_account_handler msg self) = None
  ∧ raised (my_tick_handler msg self) = None.
Proof.
  unfold raised. split_and!; [| | | | done | done].
  - rewrite <- search_token_None. unfold managed_account_handler.
    change account_re with (token_re "accountsList=" Re.word).
    destruct (Re.search _ (py_str msg)); unfold_method; cbn [fst snd].
    + split; [by intros [e He] | done].
    + split; [done |]. intros _. destruct (str_add _ msg); eauto.
  - rewrite <- search_token_None. unfold next_valid_id_handler.
    change order_id_re with (token_re "orderId=" Re.digit).
    destruct (Re.search _ (py_str msg)); unfold_method; cbn [fst snd].
    + split; [by intros [e He] | done].
    + split; [done |]. intros _. destruct (str_add _ msg); eauto.
  - unfold shutdown_signal, error_handler.
    destruct (Re.search error_re (py_str msg)) as [regex|];
      unfold_method; unfold account_id, class_account_id, str_add;
      cbn [fst snd].
    + destruct (_ && _); cbn [self_account_id set_logger].
      * destruct (self_account_id self); cbn [fst snd].
        -- simpl. split; [by intros [e He] | by intros [? _]].
        -- split; [done | eauto].
      * split; [by intros [e He] | by intros [_ ?]].
    + split; [by intros [e He] | by intros [_ ?]].
  - unfold reply_handler. unfold_method.
    destruct msg as [| | | |cls tn text]; cbn [get_typeName fst snd].
    1-4: split; [by intros _ ??? | eauto].
    split; [by intros [e He] | intros H; by destruct (H cls tn text)].
Qed.

Lemma handler_outcomes_witness :
  is_Some (raised (error_handler shutdown_error demo))
  ∧ is_Some (raised (reply_handler (VStr "pong") demo))
  ∧ is_Some (raised (next_valid_id_handler (VStr "<nextValidId>") demo)).
Proof.
  split; [| split].
  - apply (proj1 (proj2 (proj2 (handler_outcomes shutdown_error demo)))).
    split; [reflexivity | vm_compute; reflexivity].
  - apply (proj1 (proj2 (proj2 (proj2
             (handler_outcomes (VStr "pong") demo))))).
    discriminate.
  - apply (proj1 (proj2 (handler_outcomes (VStr "<nextValidId>") demo))).
    apply search_token_None. vm_compute. reflexivity.
Defined.

(** X15. When the managed-accounts handler, the next-valid-id handler or
    the reply handler raises, it leaves the adapter exactly as it was:
    nothing stored, nothing logged. *)
Theorem raising_handler_changes_nothing msg self :
  (is_Some (raised (managed_account_handler msg self)) →
   (managed_account_handler msg self).2 = self)
  ∧ (is_Some (raised (next_valid_id_handler msg self)) →
     (next_valid_id_handler msg self).2 = self)
  ∧ (is_Some (raised (reply_handler msg self)) →
     (reply_handler msg self).2 = self).
Proof.
  unfold raised, managed_account_handler, next_valid_id_handler,
    reply_handler.
  split_and!; intros [e He]; revert He; unfold_method; cbn [fst snd];
    repeat case_match; simplify_eq; cbn [fst snd] in *; done.
Qed.

Lemma raising_handler_changes_nothing_witness :
  (next_valid_id_handler (VStr "<nextValidId orderId=>")
     (set_nextOrderId 42 demo)).2
  = set_nextOrderId 42 demo.
Proof.
  apply (proj1 (proj2 (raising_handler_changes_nothing
                         (VStr "<nextValidId orderId=>")
                         (set_nextOrderId 42 demo)))).
  eexists. vm_compute. reflexivity.
Defined.

(** ** Tokens, decimal numbers and keys *)

Lemma str_app_split a b c d :
  a +:+ b = c +:+ d → String.length c ≤ String.length a →
  ∃ e, a = c +:+ e ∧ d = e +:+ b.
Proof.
  revert a. induction c as [|x c IH]; intros a H Hlen.
  - exists a. by rewrite !str_app_nil_l in *.
  - destruct a as [|y a]; [simpl in Hlen; lia |].
    rewrite !str_app_cons in H. injection H as -> H.
    destruct (IH a H) as (e & -> & ->); [simpl in Hlen; lia |].
    by exists e.
Qed.

(** A token behind which the class stops, and before which the pattern
    does not occur, is the first token. *)
Lemma first_token_intro key p pre g post :
  g ≠ EmptyString → Str.all p g = true → Str.stops p post = true →
  ¬ contains key p (pre +:+ key) →
  first_token key p (pre +:+ key +:+ g +:+ post) pre g post.
Proof.
  intros Hg Hall Hstop Hno. repeat split; try done.
  intros pre' s Heq (c & rest & -> & Hc).
  destruct (Nat.le_gt_cases (String.length pre) (String.length pre'))
    as [|Hlt]; [done |].
  exfalso. apply Hno.
  destruct (str_app_split _ _ _ _ Heq) as (e & -> & He); [lia |].
  rewrite str_app_length in Hlt.
  assert ((e +:+ key) +:+ g +:+ post
          = (key +:+ String c EmptyString) +:+ rest) as He'.
  { by rewrite !str_app_assoc, <- He. }
  destruct (str_app_split _ _ _ _ He') as (e' & He2 & _).
  { rewrite !str_app_length. simpl. lia. }
  exists pre', (e +:+ key). split; [by rewrite str_app_assoc |].
  exists c, e'. split; [| done].
  by rewrite He2, str_app_assoc.
Qed.

(** [int] reads back what ["%d"] prints, for a natural number. *)
Lemma int_acc_uint d acc :
  Str.int_acc (Z.pos acc) (NilEmpty.string_of_uint d)
  = Z.pos (Pos.of_uint_acc d acc).
Proof.
  revert acc. induction d; intros acc; simpl; [done |..];
    rewrite <- IHd; f_equal; unfold Str.digit_val; simpl; lia.
Qed.

Lemma int_uint d :
  Str.int_acc 0 (NilEmpty.string_of_uint d) = Z.of_N (Pos.of_uint d).
Proof.
  induction d; simpl; [done | exact IHd |..]; apply (int_acc_uint d).
Qed.

Lemma uint_digits d :
  Str.all Str.is_digit (NilEmpty.string_of_uint d) = true.
Proof. induction d; simpl; done. Qed.

Lemma of_int_pos p :
  Str.of_int (Z.pos p) = NilEmpty.string_of_uint (Pos.to_uint p).
Proof.
  unfold Str.of_int. simpl. pose proof (Unsigned.to_uint_nonnil p).
  by destruct (Pos.to_uint p).
Qed.

Lemma int_of_int n : (0 ≤ n)%Z → Str.int (Str.of_int n) = n.
Proof.
  intros H. destruct n as [|p|p]; [done | | lia].
  rewrite of_int_pos. unfold Str.int. by rewrite int_uint, Unsigned.of_to.
Qed.

Lemma of_int_digits n :
  (0 ≤ n)%Z →
  Str.of_int n ≠ EmptyString ∧ Str.all Str.is_digit (Str.of_int n) = true.
Proof.
  intros H. destruct n as [|p|p]; [done | | lia].
  rewrite of_int_pos. split; [| apply uint_digits].
  pose proof (Unsigned.to_uint_nonnil p). by destruct (Pos.to_uint p).
Qed.

(** X16. A message whose first [orderId=] token is the decimal form of a
    natural number [n] makes the next-valid-id handler return; the next
    order id afterwards is exactly [n], whatever it was before, and the
    file log afterwards is the log before followed by one info record
    giving [n] in the same decimal form. *)
Theorem next_valid_id_handler_round_trip self msg pre n post :
  (0 ≤ n)%Z →
  py_str msg = pre +:+ "orderId=" +:+ Str.of_int n +:+ post →
  Str.stops Re.digit post = true →
  ¬ contains "orderId=" Re.digit (pre +:+ "orderId=") →
  (next_valid_id_handler msg self).1 = inr ()
  ∧ nextOrderId (next_valid_id_handler msg self).2 = n
  ∧ logger (next_valid_id_handler msg self).2
    = logger self ++ [(INFO, "next valid id: " +:+ Str.of_int n)].
Proof.
  intros Hn Hmsg Hpost Hpre. destruct (of_int_digits n Hn) as [Hne Hdig].
  rewrite (next_valid_id_handler_match self msg pre (Str.of_int n) post).
  - by rewrite int_of_int.
  - rewrite Hmsg. by apply first_token_intro.
Qed.

Lemma next_valid_id_handler_round_trip_witness :
  nextOrderId
    (next_valid_id_handler
       (VObj "NextValidId" "nextValidId" "<nextValidId orderId=1207>")
       (set_nextOrderId 42 demo)).2
  = 1207%Z
  ∧ logger
      (next_valid_id_handler
         (VObj "NextValidId" "nextValidId" "<nextValidId orderId=1207>")
         (set_nextOrderId 42 demo)).2
    = [(INFO, "next valid id: 1207")].
Proof.
  destruct (next_valid_id_handler_round_trip (set_nextOrderId 42 demo)
              (VObj "NextValidId" "nextValidId" "<nextValidId orderId=1207>")
              "<nextValidId " 1207 ">") as (_ & H2 & H3).
  - lia.
  - reflexivity.
  - reflexivity.
  - apply search_token_None. vm_compute. reflexivity.
  - split; [exact H2 | exact H3].
Defined.

(** X17. A message whose first [accountsList=] token is [g] makes the
    managed-accounts handler return; the account id afterwards is [g],
    whatever it was before, and the file log afterwards is the log before
    followed by one info record naming [g]. Of a comma-separated list of
    accounts only the first is kept, since the token ends at the first
    byte that is not a letter, a digit or an underscore. *)
Theorem managed_account_handler_first_account self msg pre g post :
  py_str msg = pre +:+ "accountsList=" +:+ g +:+ post →
  g ≠ EmptyString →
  Str.all Re.word g = true →
  Str.stops Re.word post = true →
  ¬ contains "accountsList=" Re.word (pre +:+ "accountsList=") →
  (managed_account_handler msg self).1 = inr ()
  ∧ account_id (managed_account_handler msg self).2 = VStr g
  ∧ logger (managed_account_handler msg self).2
    = logger self ++ [(INFO, "IB account: " +:+ g)].
Proof.
  intros Hmsg Hg Hall Hpost Hpre.
  rewrite (managed_account_handler_match self msg pre g post); [done |].
  rewrite Hmsg. by apply first_token_intro.
Qed.

Lemma managed_account_handler_first_account_witness :
  account_id
    (managed_account_handler
       (VObj "ManagedAccounts" "managedAccounts"
          "<managedAccounts accountsList=DU9,DU10>")
       (set_account_id "U123456" demo)).2
  = VStr "DU9"
  ∧ logger
      (managed_account_handler
         (VObj "ManagedAccounts" "managedAccounts"
            "<managedAccounts accountsList=DU9,DU10>")
         (set_account_id "U123456" demo)).2
    = [(INFO, "IB account: DU9")].
Proof.
  destruct (managed_account_handler_first_account
              (set_account_id "U123456" demo)
              (VObj "ManagedAccounts" "managedAccounts"
                 "<managedAccounts accountsList=DU9,DU10>")
              "<managedAccounts " "DU9" ",DU10>") as (_ & H2 & H3).
  - reflexivity.
  - discriminate.
  - reflexivity.
  - reflexivity.
  - apply search_token_None. vm_compute. reflexivity.
  - split; [exact H2 | exact H3].
Defined.

(** X18. [create_contract] applied to the fields of a contract it
    returned gives that contract again. *)
Theorem create_contract_idempotent symbol sec_type exch prim_exch curr self :
  ∃ c,
    create_contract symbol sec_type exch prim_exch curr self = (inr c, self)
    ∧ create_contract (m_symbol c) (m_secType c) (m_exchange c)
        (m_primaryExch c) (m_currency c) self
      = (inr c, self).
Proof.
  eexists. split; [apply create_contract_result |].
  rewrite create_contract_result. cbn [m_symbol m_secType m_exchange
    m_primaryExch m_currency]. rewrite !lower_idemp.
  by destruct (override _ _ _).
Qed.

Lemma lower_not_upper s k :
  Str.all (λ c, negb (Str.is_upper c)) k = false → Str.lower s ≠ k.
Proof. intros H <-. by rewrite lower_no_upper in H. Qed.

(** X19. Only lower-case keys of the symbol map can ever be hit: when
    every security-type key of the map contains an upper-case letter, no
    override applies and every contract gets the caller's primary
    exchange. *)
Theorem create_contract_misses_upper_case_keys
    symbol sec_type exch prim_exch curr self :
  (∀ k, is_Some (symbol_map self !! k) →
        Str.all (λ c, negb (Str.is_upper c)) k = false) →
  create_contract symbol sec_type exch prim_exch curr self
  = (inr (mkContract (Str.lower symbol) (Str.lower sec_type) exch prim_exch
            curr),
     self).
Proof.
  intros H. rewrite create_contract_result. unfold override.
  destruct (symbol_map self !! Str.lower sec_type) as [by_symbol|] eqn:E;
    [| done].
  exfalso. apply (lower_not_upper sec_type (Str.lower sec_type)); [| done].
  apply H. by rewrite E.
Qed.

Lemma create_contract_misses_upper_case_keys_witness :
  create_contract "GLD" "STK" "SMART" "SMART" "USD"
    (mkIBWrapper "localhost:7496" [] (VInt 1) None
       {[ "STK" := {[ "GLD" := {[ "prim_exch" := VStr "ARCA" ]} ]} ]}
       [] None None)
  = (inr (mkContract "gld" "stk" "SMART" "SMART" "USD"),
     mkIBWrapper "localhost:7496" [] (VInt 1) None
       {[ "STK" := {[ "GLD" := {[ "prim_exch" := VStr "ARCA" ]} ]} ]}
       [] None None).
Proof.
  apply (create_contract_misses_upper_case_keys
           "GLD" "STK" "SMART" "SMART" "USD").
  intros k [v Hk]. cbn [symbol_map] in Hk.
  apply lookup_singleton_Some in Hk as [<- _]. reflexivity.
Defined.
